(** * THANOS Evolution: the on-device controller (thanos_main.ino)

    A shallow embedding of the Arduino sketch that drives the five finger
    servos, samples the sensors, uploads telemetry and honours the emergency
    stop, followed by the properties proved about it.

    Conventions.
    - [int] and [long] are 32 bits on the board (Arduino R4); signed
      arithmetic is written with [wrap_int], [unsigned long] arithmetic with
      [wrap_ulong].
    - The global variables of the sketch are the fields of [State]; every
      function of the sketch is a function [State -> State].
    - Everything the sketch reads from the outside (the clock, the ADC, the
      optical sensor, the serial line, the WiFi link, the interrupt line) is
      an explicit input of the function that reads it.
    - Everything the sketch does to the outside (servo writes, detaches,
      serial output, delays, HTTP posts) is recorded in [trace], newest
      event first. *)

From Stdlib Require Import ZArith List String Ascii Bool Lia DecimalString.
From Stdlib Require Import Permutation.
Import ListNotations.

Local Open Scope string_scope.
Local Open Scope Z_scope.

(* ================================================================== *)
(** ** Machine integers *)

Definition wrap_int (z : Z) : Z := (z + 2 ^ 31) mod 2 ^ 32 - 2 ^ 31.

Definition wrap_ulong (z : Z) : Z := z mod 2 ^ 32.

(** Arduino's [min] and [max] macros: [((a)<(b)?(a):(b))] and its dual. *)
Definition amin (a b : Z) : Z := if a <? b then a else b.
Definition amax (a b : Z) : Z := if a >? b then a else b.

(* ================================================================== *)
(** ** The Arduino [String] class, as far as the sketch uses it *)

Module WString.

Definition dquote : string := String "034"%char EmptyString.

(** [isspace] of the C locale: space, and the controls 9..13. *)
Definition isspace (c : ascii) : bool :=
  let n := N_of_ascii c in
  (n =? 32)%N || ((9 <=? n)%N && (n <=? 13)%N).

Definition toupper (c : ascii) : ascii :=
  let n := N_of_ascii c in
  if ((97 <=? n)%N && (n <=? 122)%N)%bool then ascii_of_N (n - 32) else c.

Definition tolower (c : ascii) : ascii :=
  let n := N_of_ascii c in
  if ((65 <=? n)%N && (n <=? 90)%N)%bool then ascii_of_N (n + 32) else c.

Fixpoint map_chars (f : ascii -> ascii) (s : string) : string :=
  match s with
  | EmptyString => EmptyString
  | String c r => String (f c) (map_chars f r)
  end.

Definition toUpperCase : string -> string := map_chars toupper.
Definition toLowerCase : string -> string := map_chars tolower.

Fixpoint trim_left (s : string) : string :=
  match s with
  | EmptyString => EmptyString
  | String c r => if isspace c then trim_left r else s
  end.

Fixpoint trim_right (s : string) : string :=
  match s with
  | EmptyString => EmptyString
  | String c r =>
      match trim_right r with
      | EmptyString => if isspace c then EmptyString else String c EmptyString
      | r' => String c r'
      end
  end.

(** [String::trim]: drops leading and trailing white space. *)
Definition trim (s : string) : string := trim_right (trim_left s).

Fixpoint startsWith (s p : string) {struct p} : bool :=
  match p, s with
  | EmptyString, _ => true
  | String a p', String b s' => Ascii.eqb a b && startsWith s' p'
  | String _ _, EmptyString => false
  end.

(** [String::substring(from)]: the suffix that starts at index [from]. *)
Fixpoint substring (from : nat) (s : string) : string :=
  match from, s with
  | O, _ => s
  | S n, String _ r => substring n r
  | S _, EmptyString => EmptyString
  end.

(** [String(n)] for an integer [n]: its decimal numeral. *)
Definition ofInt (z : Z) : string := NilZero.string_of_int (Z.to_int z).

(** [String(x)] for a [float] prints two decimals.  The two [float]
    globals of the sketch only ever hold the integers returned by
    [analogRead], so the fraction digits are always zero. *)
Definition ofFloat (z : Z) : string := ofInt z ++ ".00".

End WString.

(* ================================================================== *)
(** ** Fixed-size arrays and counted loops *)

Fixpoint array_set {A : Type} (l : list A) (i : nat) (v : A) : list A :=
  match l, i with
  | [], _ => []
  | _ :: t, O => v :: t
  | h :: t, S i' => h :: array_set t i' v
  end.

(** [for (int i = from; i < from + count; i++) body] *)
Fixpoint for_loop {S : Type} (count from : nat) (body : nat -> S -> S) (st : S) : S :=
  match count with
  | O => st
  | Datatypes.S c => for_loop c (Datatypes.S from) body (body from st)
  end.

(* ================================================================== *)
(** ** Configuration *)

Definition NUM_FINGERS : nat := 5.
Definition SERVO_PINS : list Z := [3; 5; 6; 9; 10].
Definition SERVO_SPEED : Z := 5.
Definition SERVO_UPDATE_MS : Z := 20.

Record Pose := mkPose { name : string; angles : list Z }.

Definition poses : list Pose :=
  [ mkPose "REST"       [0; 0; 0; 0; 0];
    mkPose "FIST"       [90; 180; 180; 180; 180];
    mkPose "OPEN"       [45; 0; 0; 0; 0];
    mkPose "ONE"        [90; 0; 180; 180; 180];
    mkPose "TWO"        [90; 0; 0; 180; 180];
    mkPose "THREE"      [90; 0; 0; 0; 180];
    mkPose "FOUR"       [90; 0; 0; 0; 0];
    mkPose "FIVE"       [45; 0; 0; 0; 0];
    mkPose "L_SHAPE"    [0; 0; 180; 180; 180];
    mkPose "BAD_FINGER" [90; 180; 0; 180; 180];
    mkPose "SPIDERMAN"  [0; 0; 180; 180; 0];
    mkPose "EYY"        [0; 0; 180; 180; 180];
    mkPose "ROCK_ROLL"  [0; 0; 180; 180; 0];
    mkPose "TWO_JOINT"  [90; 180; 180; 90; 90] ].

Definition NUM_POSES : nat := List.length poses.

(* ================================================================== *)
(** ** Events and state *)

Inductive Event : Type :=
| ServoAttach (i : nat) (pin : Z)
| ServoWrite (i : nat) (angle : Z)
| ServoDetach (i : nat)
| SerialPrint (s : string)
| SerialRead (s : string)
| Delay (ms : Z)
| HttpPost (body : string).

Record State := mkState {
  currentPose : list Z;
  targetPose : list Z;
  movementActive : bool;
  emergencyStop : bool;
  gsrValue : Z;
  emgValue : Z;
  heartRate : Z;
  spo2 : Z;
  lastServoUpdate : Z;
  lastSensorRead : Z;
  lastCloudUpload : Z;
  sessionStartTime : Z;
  currentPoseName : string;
  sessionID : string;
  attached : list bool;     (* fingers[i].attached() *)
  trace : list Event
}.

Definition set_currentPose (v : list Z) (s : State) : State :=
  mkState v (targetPose s) (movementActive s) (emergencyStop s) (gsrValue s)
    (emgValue s) (heartRate s) (spo2 s) (lastServoUpdate s) (lastSensorRead s)
    (lastCloudUpload s) (sessionStartTime s) (currentPoseName s) (sessionID s)
    (attached s) (trace s).

Definition set_targetPose (v : list Z) (s : State) : State :=
  mkState (currentPose s) v (movementActive s) (emergencyStop s) (gsrValue s)
    (emgValue s) (heartRate s) (spo2 s) (lastServoUpdate s) (lastSensorRead s)
    (lastCloudUpload s) (sessionStartTime s) (currentPoseName s) (sessionID s)
    (attached s) (trace s).

Definition set_movementActive (v : bool) (s : State) : State :=
  mkState (currentPose s) (targetPose s) v (emergencyStop s) (gsrValue s)
    (emgValue s) (heartRate s) (spo2 s) (lastServoUpdate s) (lastSensorRead s)
    (lastCloudUpload s) (sessionStartTime s) (currentPoseName s) (sessionID s)
    (attached s) (trace s).

Definition set_emergencyStop (v : bool) (s : State) : State :=
  mkState (currentPose s) (targetPose s) (movementActive s) v (gsrValue s)
    (emgValue s) (heartRate s) (spo2 s) (lastServoUpdate s) (lastSensorRead s)
    (lastCloudUpload s) (sessionStartTime s) (currentPoseName s) (sessionID s)
    (attached s) (trace s).

Definition set_gsrValue (v : Z) (s : State) : State :=
  mkState (currentPose s) (targetPose s) (movementActive s) (emergencyStop s) v
    (emgValue s) (heartRate s) (spo2 s) (lastServoUpdate s) (lastSensorRead s)
    (lastCloudUpload s) (sessionStartTime s) (currentPoseName s) (sessionID s)
    (attached s) (trace s).

Definition set_emgValue (v : Z) (s : State) : State :=
  mkState (currentPose s) (targetPose s) (movementActive s) (emergencyStop s)
    (gsrValue s) v (heartRate s) (spo2 s) (lastServoUpdate s) (lastSensorRead s)
    (lastCloudUpload s) (sessionStartTime s) (currentPoseName s) (sessionID s)
    (attached s) (trace s).

Definition set_heartRate (v : Z) (s : State) : State :=
  mkState (currentPose s) (targetPose s) (movementActive s) (emergencyStop s)
    (gsrValue s) (emgValue s) v (spo2 s) (lastServoUpdate s) (lastSensorRead s)
    (lastCloudUpload s) (sessionStartTime s) (currentPoseName s) (sessionID s)
    (attached s) (trace s).

Definition set_spo2 (v : Z) (s : State) : State :=
  mkState (currentPose s) (targetPose s) (movementActive s) (emergencyStop s)
    (gsrValue s) (emgValue s) (heartRate s) v (lastServoUpdate s) (lastSensorRead s)
    (lastCloudUpload s) (sessionStartTime s) (currentPoseName s) (sessionID s)
    (attached s) (trace s).

Definition set_lastServoUpdate (v : Z) (s : State) : State :=
  mkState (currentPose s) (targetPose s) (movementActive s) (emergencyStop s)
    (gsrValue s) (emgValue s) (heartRate s) (spo2 s) v (lastSensorRead s)
    (lastCloudUpload s) (sessionStartTime s) (currentPoseName s) (sessionID s)
    (attached s) (trace s).

Definition set_lastSensorRead (v : Z) (s : State) : State :=
  mkState (currentPose s) (targetPose s) (movementActive s) (emergencyStop s)
    (gsrValue s) (emgValue s) (heartRate s) (spo2 s) (lastServoUpdate s) v
    (lastCloudUpload s) (sessionStartTime s) (currentPoseName s) (sessionID s)
    (attached s) (trace s).

Definition set_lastCloudUpload (v : Z) (s : State) : State :=
  mkState (currentPose s) (targetPose s) (movementActive s) (emergencyStop s)
    (gsrValue s) (emgValue s) (heartRate s) (spo2 s) (lastServoUpdate s)
    (lastSensorRead s) v (sessionStartTime s) (currentPoseName s) (sessionID s)
    (attached s) (trace s).

Definition set_sessionStartTime (v : Z) (s : State) : State :=
  mkState (currentPose s) (targetPose s) (movementActive s) (emergencyStop s)
    (gsrValue s) (emgValue s) (heartRate s) (spo2 s) (lastServoUpdate s)
    (lastSensorRead s) (lastCloudUpload s) v (currentPoseName s) (sessionID s)
    (attached s) (trace s).

Definition set_currentPoseName (v : string) (s : State) : State :=
  mkState (currentPose s) (targetPose s) (movementActive s) (emergencyStop s)
    (gsrValue s) (emgValue s) (heartRate s) (spo2 s) (lastServoUpdate s)
    (lastSensorRead s) (lastCloudUpload s) (sessionStartTime s) v (sessionID s)
    (attached s) (trace s).

Definition set_sessionID (v : string) (s : State) : State :=
  mkState (currentPose s) (targetPose s) (movementActive s) (emergencyStop s)
    (gsrValue s) (emgValue s) (heartRate s) (spo2 s) (lastServoUpdate s)
    (lastSensorRead s) (lastCloudUpload s) (sessionStartTime s)
    (currentPoseName s) v (attached s) (trace s).

Definition set_attached (v : list bool) (s : State) : State :=
  mkState (currentPose s) (targetPose s) (movementActive s) (emergencyStop s)
    (gsrValue s) (emgValue s) (heartRate s) (spo2 s) (lastServoUpdate s)
    (lastSensorRead s) (lastCloudUpload s) (sessionStartTime s)
    (currentPoseName s) (sessionID s) v (trace s).

(** Record one more event. *)
Definition emit (e : Event) (s : State) : State :=
  mkState (currentPose s) (targetPose s) (movementActive s) (emergencyStop s)
    (gsrValue s) (emgValue s) (heartRate s) (spo2 s) (lastServoUpdate s)
    (lastSensorRead s) (lastCloudUpload s) (sessionStartTime s)
    (currentPoseName s) (sessionID s) (attached s) (e :: trace s).


Definition print (msg : string) : State -> State := emit (SerialPrint msg).

(** [Serial.println] ends the line with CR LF. *)
Definition CRLF : string := String "013"%char (String "010"%char EmptyString).
Definition println (msg : string) : State -> State :=
  emit (SerialPrint (msg ++ CRLF)).

(* ================================================================== *)
(** ** Servo control *)

(** Body of the loop of [updateServoPositions], for finger [i]. *)
Definition servo_body (speed : Z) (i : nat) (st : State) : State :=
  let cur := nth i (currentPose st) 0 in
  let tgt := nth i (targetPose st) 0 in
  if cur =? tgt then st
  else
    let st := set_movementActive true st in
    let diff := wrap_int (tgt - cur) in
    let step := if diff >? 0 then amin speed diff else amax (- speed) diff in
    let st := set_currentPose
                (array_set (currentPose st) i (wrap_int (cur + step))) st in
    emit (ServoWrite i (nth i (currentPose st) 0)) st.

(** [updateServoPositions], with the step size [SERVO_SPEED] as a parameter. *)
Definition updateServoPositions_at (speed : Z) (st : State) : State :=
  for_loop NUM_FINGERS 0 (servo_body speed) (set_movementActive false st).

Definition updateServoPositions : State -> State :=
  updateServoPositions_at SERVO_SPEED.

(** The search of [setPose]: the first entry whose name is [poseName]. *)
Fixpoint find_pose (tbl : list Pose) (poseName : string) : option Pose :=
  match tbl with
  | [] => None
  | p :: rest =>
      if String.eqb (name p) poseName then Some p else find_pose rest poseName
  end.

(** The inner loop of [setPose]: [targetPose[j] = angles[j]] for each finger. *)
Definition setTargets (a : list Z) (st : State) : State :=
  for_loop NUM_FINGERS 0
    (fun j st => set_targetPose (array_set (targetPose st) j (nth j a 0)) st) st.

(** [setPose] over a pose table. *)
Definition setPose_in (tbl : list Pose) (poseName : string) (st : State) : State :=
  let poseName := WString.toUpperCase poseName in
  match find_pose tbl poseName with
  | Some p =>
      let st := print "Executing pose: " st in
      let st := println poseName st in
      let st := set_currentPoseName poseName st in
      setTargets (angles p) st
  | None => println "✗ Pose not found" st
  end.

Definition setPose : string -> State -> State := setPose_in poses.

(* ================================================================== *)
(** ** Sensor reading *)

(** What one call of [readSensors] reads from the hardware. *)
Record SensorInput := mkSensorInput {
  adc_gsr : Z;        (* analogRead(GSR_PIN) *)
  adc_emg : Z;        (* analogRead(EMG_PIN) *)
  ir_value : Z;       (* particleSensor.getIR(), as the long irValue *)
  hr_reading : Z;     (* particleSensor.getHeartRate() *)
  spo2_reading : Z    (* particleSensor.getSpO2() *)
}.

Definition readSensors (inp : SensorInput) (st : State) : State :=
  let st := set_gsrValue (adc_gsr inp) st in
  let st := set_emgValue (adc_emg inp) st in
  let irValue := ir_value inp in
  if irValue >? 50000 then
    let st := set_heartRate (hr_reading inp) st in
    set_spo2 (spo2_reading inp) st
  else st.

(* ================================================================== *)
(** ** Cloud integration *)

(** [createDataPayload]; [ms_stamp] and [ms_dur] are its two readings of
    [millis()]. *)
Definition createDataPayload (ms_stamp ms_dur : Z) (st : State) : string :=
  let q := WString.dquote in
  let json := "{" in
  let json := json ++ (q ++ "session_id" ++ q ++ ":" ++ q ++ sessionID st ++ q ++ ",") in
  let json := json ++ (q ++ "timestamp" ++ q ++ ":" ++ WString.ofInt ms_stamp ++ ",") in
  let json := json ++ (q ++ "pose" ++ q ++ ":" ++ q ++ currentPoseName st ++ q ++ ",") in
  let json := json ++ (q ++ "servo_positions" ++ q ++ ":["
                         ++ WString.ofInt (nth 0 (currentPose st) 0) ++ ","
                         ++ WString.ofInt (nth 1 (currentPose st) 0) ++ ","
                         ++ WString.ofInt (nth 2 (currentPose st) 0) ++ ","
                         ++ WString.ofInt (nth 3 (currentPose st) 0) ++ ","
                         ++ WString.ofInt (nth 4 (currentPose st) 0) ++ "],") in
  let json := json ++ (q ++ "gsr" ++ q ++ ":" ++ WString.ofFloat (gsrValue st) ++ ",") in
  let json := json ++ (q ++ "emg" ++ q ++ ":" ++ WString.ofFloat (emgValue st) ++ ",") in
  let json := json ++ (q ++ "heart_rate" ++ q ++ ":" ++ WString.ofInt (heartRate st) ++ ",") in
  let json := json ++ (q ++ "spo2" ++ q ++ ":" ++ WString.ofInt (spo2 st) ++ ",") in
  let json := json ++ (q ++ "session_duration" ++ q ++ ":"
                         ++ WString.ofInt (wrap_ulong (ms_dur - sessionStartTime st) / 1000)) in
  let json := json ++ "}" in
  json.

(** What one call of [uploadToCloud] reads from the outside. *)
Record NetInput := mkNetInput {
  wifi_connected : bool;   (* WiFi.status() == WL_CONNECTED *)
  connect_ok : bool;       (* client.connect(API_ENDPOINT, API_PORT) *)
  ms_payload_stamp : Z;    (* millis() for the timestamp field *)
  ms_payload_dur : Z       (* millis() for the session_duration field *)
}.

(** The request lines written to the client are recorded as one [HttpPost]
    event that carries the body. *)
Definition uploadToCloud (inp : NetInput) (st : State) : State :=
  if negb (wifi_connected inp) then st
  else
    let payload := createDataPayload (ms_payload_stamp inp) (ms_payload_dur inp) st in
    if connect_ok inp then
      let st := emit (HttpPost payload) st in
      println "✓ Data uploaded to cloud" st
    else println "✗ Cloud connection failed" st.

(* ================================================================== *)
(** ** Command processing *)

Definition printSensorData (st : State) : State :=
  let st := println (String "010"%char "=== Sensor Data ===") st in
  let st := print "GSR: " st in
  let st := println (WString.ofFloat (gsrValue st)) st in
  let st := print "EMG: " st in
  let st := println (WString.ofFloat (emgValue st)) st in
  let st := print "Heart Rate: " st in
  let st := print (WString.ofInt (heartRate st)) st in
  let st := println " bpm" st in
  let st := print "SpO2: " st in
  let st := print (WString.ofInt (spo2 st)) st in
  let st := println "%" st in
  let st := print "Current Pose: " st in
  let st := println (currentPoseName st) st in
  let st := print "Moving: " st in
  let st := println (if movementActive st then "Yes" else "No") st in
  println ("==================" ++ String "010"%char EmptyString) st.

Definition list_body (i : nat) (st : State) : State :=
  let st := print "  - " st in
  println (name (nth i poses (mkPose EmptyString []))) st.

Definition processCommand (cmd : string) (st : State) : State :=
  let cmd := WString.trim cmd in
  let cmd := WString.toLowerCase cmd in
  if WString.startsWith cmd "pose " then
    let poseName := WString.substring 5 cmd in
    setPose poseName st
  else if String.eqb cmd "list" then
    let st := println (String "010"%char "Available Poses:") st in
    for_loop NUM_POSES 0 list_body st
  else if String.eqb cmd "stop" then
    let st := set_emergencyStop true st in
    println "EMERGENCY STOP ACTIVATED" st
  else if String.eqb cmd "data" then
    printSensorData st
  else if String.eqb cmd "resume" then
    let st := set_emergencyStop false st in
    println "System resumed" st
  else
    println "Unknown command" st.

(* ================================================================== *)
(** ** Safety functions *)

Definition emergencyStopISR (st : State) : State := set_emergencyStop true st.

Definition handleEmergencyStop (st : State) : State :=
  let st := for_loop NUM_FINGERS 0
              (fun i st => emit (ServoDetach i)
                             (set_attached (array_set (attached st) i false) st)) st in
  let st := println "!!! EMERGENCY STOP ACTIVE !!!" st in
  let st := println "Type 'resume' to restart system" st in
  emit (Delay 1000) st.

(** The interrupt, if it fires, runs [emergencyStopISR]. *)
Definition fire (irq : bool) (st : State) : State :=
  if irq then emergencyStopISR st else st.

(* ================================================================== *)
(** ** Initialisation *)

(** The globals as their static initialisers leave them; no servo is
    attached yet. *)
Definition power_on : State :=
  mkState [0; 0; 0; 0; 0] [0; 0; 0; 0; 0] false false 0 0 0 0 0 0 0 0
    "REST" EmptyString [false; false; false; false; false] [].

Definition initServos (st : State) : State :=
  let st := println "Initializing servos..." st in
  let st :=
    for_loop NUM_FINGERS 0
      (fun i st =>
         let st := set_attached (array_set (attached st) i true) st in
         let st := emit (ServoAttach i (nth i SERVO_PINS 0)) st in
         let st := emit (ServoWrite i 0) st in
         let st := set_currentPose (array_set (currentPose st) i 0) st in
         let st := set_targetPose (array_set (targetPose st) i 0) st in
         emit (Delay 100) st) st in
  println "✓ Servos initialized" st.

(** What [setup] reads from the outside. *)
Record BootInput := mkBootInput {
  sensor_found : bool;   (* particleSensor.begin(...) *)
  wifi_polls : nat;      (* iterations of the connection wait loop, at most 20 *)
  wifi_joined : bool;    (* WiFi.status() == WL_CONNECTED after the wait *)
  local_ip : string;     (* WiFi.localIP() *)
  ms_boot_id : Z;        (* millis() for the session id *)
  random_id : Z;         (* random(10000) *)
  ms_boot_start : Z;     (* millis() for sessionStartTime *)
  irq_boot : bool        (* the stop button was pressed during setup *)
}.

Definition initSensors (found : bool) (st : State) : State :=
  let st := println "Initializing sensors..." st in
  let st := if negb found then println "✗ MAX30102 not found" st
            else println "✓ MAX30102 initialized" st in
  println "✓ GSR and EMG ready" st.

Definition initWiFi (b : BootInput) (st : State) : State :=
  let st := print "Connecting to WiFi" st in
  let st := for_loop (wifi_polls b) 0
              (fun _ st => print "." (emit (Delay 500) st)) st in
  if wifi_joined b then
    let st := println (String "010"%char "✓ WiFi connected") st in
    let st := print "IP: " st in
    println (local_ip b) st
  else
    println (String "010"%char "✗ WiFi connection failed - continuing offline") st.

Definition setup (b : BootInput) (st : State) : State :=
  let st := println "=== THANOS Evolution Initializing ===" st in
  let st := initServos st in
  let st := initSensors (sensor_found b) st in
  let st := initWiFi b st in
  let st := set_sessionID
              (WString.ofInt (ms_boot_id b) ++ "_" ++ WString.ofInt (random_id b)) st in
  let st := set_sessionStartTime (ms_boot_start b) st in
  let st := println "=== System Ready ===" st in
  let st := println "Available Commands:" st in
  let st := println "  pose <name> - Execute pose" st in
  let st := println "  list - Show all poses" st in
  let st := println "  stop - Emergency stop" st in
  let st := println "  data - Show sensor data" st in
  fire (irq_boot b) st.

(* ================================================================== *)
(** ** Main loop *)

(** What one pass of [loop] reads from the outside.  The interrupt may fire
    at any instruction; the flag it sets is read only at the top of [loop]
    and written only by the stop and resume commands, so it is enough to
    tell whether it fired before the command of this pass was processed
    ([irq_early]) or after ([irq_late]). *)
Record PassInput := mkPassInput {
  ms_servo_gate : Z;
  ms_servo_stamp : Z;
  ms_sensor_gate : Z;
  ms_sensor_stamp : Z;
  ms_cloud_gate : Z;
  ms_cloud_stamp : Z;
  sensors : SensorInput;
  net : NetInput;
  serial_line : option string;  (* Some l when Serial.available() *)
  irq_early : bool;
  irq_late : bool
}.

(** The four time-gated tasks of [loop], in the order the loop runs them. *)
Definition servo_task (inp : PassInput) (st : State) : State :=
  if wrap_ulong (ms_servo_gate inp - lastServoUpdate st) >=? SERVO_UPDATE_MS then
    let st := updateServoPositions st in
    set_lastServoUpdate (ms_servo_stamp inp) st
  else st.

Definition sensor_task (inp : PassInput) (st : State) : State :=
  if wrap_ulong (ms_sensor_gate inp - lastSensorRead st) >=? 10 then
    let st := readSensors (sensors inp) st in
    set_lastSensorRead (ms_sensor_stamp inp) st
  else st.

Definition cloud_task (inp : PassInput) (st : State) : State :=
  if wrap_ulong (ms_cloud_gate inp - lastCloudUpload st) >=? 5000 then
    let st := uploadToCloud (net inp) st in
    set_lastCloudUpload (ms_cloud_stamp inp) st
  else st.

Definition command_task (inp : PassInput) (st : State) : State :=
  match serial_line inp with
  | Some l => processCommand l (emit (SerialRead l) st)
  | None => st
  end.

Definition loop (inp : PassInput) (st : State) : State :=
  if emergencyStop st then
    let st := handleEmergencyStop st in
    fire (irq_late inp) (fire (irq_early inp) st)
  else
    let st := servo_task inp st in
    let st := sensor_task inp st in
    let st := cloud_task inp st in
    let st := fire (irq_early inp) st in
    let st := command_task inp st in
    fire (irq_late inp) st.

(** Successive passes of [loop]. *)
Fixpoint run (ins : list PassInput) (st : State) : State :=
  match ins with
  | [] => st
  | i :: rest => run rest (loop i st)
  end.

(** The states the sketch can be in between two passes. *)
Definition boot (b : BootInput) : State := setup b power_on.

(** [n] successive calls of a state transformer. *)
Fixpoint iterate (n : nat) (f : State -> State) (st : State) : State :=
  match n with
  | O => st
  | S k => iterate k f (f st)
  end.

(* ================================================================== *)
(** ** Vocabulary of the properties *)

Definition angle_ok (a : Z) : Prop := 0 <= a <= 180.

(** Arrays have their declared size. *)
Definition well_sized (st : State) : Prop :=
  List.length (currentPose st) = NUM_FINGERS /\
  List.length (targetPose st) = NUM_FINGERS /\
  List.length (attached st) = NUM_FINGERS.

(** Every finger holds an angle a servo accepts, and aims at one. *)
Definition angles_in_range (st : State) : Prop :=
  Forall angle_ok (currentPose st) /\ Forall angle_ok (targetPose st).

Definition all_detached (st : State) : Prop := attached st = repeat false NUM_FINGERS.

Definition is_servo_write (e : Event) : bool :=
  match e with ServoWrite _ _ => true | _ => false end.

Definition is_serial_read (e : Event) : bool :=
  match e with SerialRead _ => true | _ => false end.

(** The angle finger [i] holds after one motion step, read off [servo_body]. *)
Definition next_angle (speed cur tgt : Z) : Z :=
  if cur =? tgt then cur
  else
    let diff := wrap_int (tgt - cur) in
    wrap_int (cur + (if diff >? 0 then amin speed diff else amax (- speed) diff)).


(** Rounded-up quotient, for nonnegative [d] and positive [s]. *)
Definition ceil_div (d s : Z) : Z := (d + s - 1) / s.

(** The current and the target angle of finger [i]. *)
Definition finger (i : nat) (st : State) : Z := nth i (currentPose st) 0.
Definition goal (i : nat) (st : State) : Z := nth i (targetPose st) 0.

(** The mechanical part of the state: angles, targets and servo bindings. *)
Definition mech (st : State) : list Z * list Z * list bool :=
  (currentPose st, targetPose st, attached st).

(** What holds between any two passes of the loop. *)
Definition Inv (st : State) : Prop := well_sized st /\ angles_in_range st.

(** What one pass through [handleEmergencyStop] does to the outside. *)
Definition stop_events : list Event :=
  [ Delay 1000;
    SerialPrint ("Type 'resume' to restart system" ++ CRLF);
    SerialPrint ("!!! EMERGENCY STOP ACTIVE !!!" ++ CRLF);
    ServoDetach 4; ServoDetach 3; ServoDetach 2; ServoDetach 1; ServoDetach 0 ].

(** Equality of strings up to the case of ASCII letters, character by
    character (the [equalsIgnoreCase] of the Arduino [String] class). *)
Definition same_letter (a b : ascii) : bool :=
  Ascii.eqb (WString.tolower a) (WString.tolower b).

Fixpoint equalsIgnoreCase (s1 s2 : string) : bool :=
  match s1, s2 with
  | EmptyString, EmptyString => true
  | String a r1, String b r2 => same_letter a b && equalsIgnoreCase r1 r2
  | _, _ => false
  end.

(** *** Telemetry as a record of named fields

    The field list as the interface description gives it, to compare with
    the text [createDataPayload] builds: the rendering of an object from a
    list of (key, rendered value) pairs, and the nine fields in order. *)
Definition json_quoted (s : string) : string :=
  WString.dquote ++ s ++ WString.dquote.

Definition json_member (kv : string * string) : string :=
  json_quoted (fst kv) ++ ":" ++ snd kv.

Fixpoint json_members (kvs : list (string * string)) : string :=
  match kvs with
  | [] => EmptyString
  | [kv] => json_member kv
  | kv :: rest => json_member kv ++ "," ++ json_members rest
  end.

Definition json_object (kvs : list (string * string)) : string :=
  "{" ++ json_members kvs ++ "}".

Fixpoint json_numbers (zs : list Z) : string :=
  match zs with
  | [] => EmptyString
  | [z] => WString.ofInt z
  | z :: rest => WString.ofInt z ++ "," ++ json_numbers rest
  end.

Definition json_array (zs : list Z) : string := "[" ++ json_numbers zs ++ "]".

Definition telemetry_record (ms_stamp ms_dur : Z) (st : State)
  : list (string * string) :=
  [ ("session_id", json_quoted (sessionID st));
    ("timestamp", WString.ofInt ms_stamp);
    ("pose", json_quoted (currentPoseName st));
    ("servo_positions",
      json_array [finger 0 st; finger 1 st; finger 2 st; finger 3 st; finger 4 st]);
    ("gsr", WString.ofFloat (gsrValue st));
    ("emg", WString.ofFloat (emgValue st));
    ("heart_rate", WString.ofInt (heartRate st));
    ("spo2", WString.ofInt (spo2 st));
    ("session_duration",
      WString.ofInt (wrap_ulong (ms_dur - sessionStartTime st) / 1000)) ].

(** *** Sample inputs *)

Definition demo_boot : BootInput :=
  mkBootInput true 3 true "192.168.1.20" 1234 42 1300 false.

Definition quiet_sensors : SensorInput := mkSensorInput 0 0 0 0 0.

Definition offline : NetInput := mkNetInput false false 0 0.

(** A pass at clock reading [ms], with an optional serial line, the stop
    button pressed at its end when [irq]. *)
Definition pass_at (ms : Z) (line : option string) (irq : bool) : PassInput :=
  mkPassInput ms ms ms ms ms ms quiet_sensors offline line false irq.

(** Freshly booted, then told to make a fist. *)
Definition fist_commanded : State := processCommand "pose fist" (boot demo_boot).

(** The fist command followed by twenty motion ticks, the stop button
    pressed during the last one. *)
Definition midway_inputs : list PassInput :=
  (pass_at 2000 (Some "pose fist") false
     :: map (fun k => pass_at (2000 + 20 * Z.of_nat k) None false) (seq 1 19)
     ++ [pass_at 2400 None true])%list.

Definition tripped_midway : State := run midway_inputs (boot demo_boot).

(** The telemetry scenario: 12 s into the session, pose OPEN reached. *)
Definition open_reached : State :=
  set_spo2 98 (set_heartRate 72 (set_emgValue 300 (set_gsrValue 512
    (iterate 9 updateServoPositions (processCommand "pose open" (boot demo_boot)))))).

(** The events of [st'] that [st] does not have yet. *)
Definition events_since (st st' : State) : list Event :=
  firstn (List.length (trace st') - List.length (trace st)) (trace st').

(* ================================================================== *)
(** ** The collector (backend/server.js): token check and offline sync *)

Module Backend.

(** [s.split(' ')]: the pieces between single spaces, empty pieces kept. *)
Fixpoint split (s : string) : list string :=
  match s with
  | EmptyString => [EmptyString]
  | String c r =>
      if Ascii.eqb c " "%char then EmptyString :: split r
      else match split r with
           | [] => [String c EmptyString]
           | w :: ws => String c w :: ws
           end
  end.

(** JavaScript truthiness of a value that is a string or [undefined]. *)
Definition truthy (v : option string) : bool :=
  match v with
  | Some (String _ _) => true
  | _ => false
  end.

Inductive Outcome (U : Type) : Type :=
| Respond (status : nat) (error : string)   (* res.status(..).json(..) *)
| Next (user : U).                          (* req.user = user; next() *)

Arguments Respond {U} status error.
Arguments Next {U} user.

(** [authenticateToken]; [verify token] is [jwt.verify(token, JWT_SECRET)],
    [None] when it reports an error; [authHeader] is
    [req.headers['authorization']], [None] when the header is absent. *)
Definition authenticateToken {U : Type} (verify : string -> option U)
    (authHeader : option string) : Outcome U :=
  let token :=
    match authHeader with
    | Some h => if truthy authHeader then nth_error (split h) 1 else authHeader
    | None => None
    end in
  if negb (truthy token) then Respond 401 "No token"
  else
    match token with
    | Some t =>
        match verify t with
        | None => Respond 403 "Invalid token"
        | Some user => Next user
        end
    | None => Respond 401 "No token"
    end.

Fixpoint no_space (s : string) : bool :=
  match s with
  | EmptyString => true
  | String c r => negb (Ascii.eqb c " "%char) && no_space r
  end.

(** The offline upload route.  The store is whatever [DataPoint.findOne]
    and [save] act on: looking an id up either throws or tells whether a
    record is there; storing either throws or succeeds, and may change the
    store.  An element of [offlineData] is [None] when it is [null] (or
    [undefined]): reading its [offlineId] throws.  Any other element is a
    [Doc], whose [offlineId] may well be [undefined], a value of [Id]. *)
Section OfflineSync.

Variables Doc Id Err DB : Type.
Variable offlineId : Doc -> Id.
Variable findOne : DB -> Id -> Err + bool.
Variable save : DB -> Doc -> DB * option Err.

(** The store, the ids pushed to [synced], the entries pushed to [failed]. *)
Definition SyncState : Type := DB * list Id * list (Id * Err).

(** The body of the loop for an element that is not [null]: what is thrown
    inside the [try] is caught and filed under [failed]. *)
Definition sync_record (st : SyncState) (data : Doc) : SyncState :=
  let '(db, synced, failed) := st in
  match findOne db (offlineId data) with
  | inl e => (db, synced, failed ++ [(offlineId data, e)])%list
  | inr true => (db, synced ++ [offlineId data], failed)%list
  | inr false =>
      match save db data with
      | (db', Some e) => (db', synced, failed ++ [(offlineId data, e)])%list
      | (db', None) => (db', synced ++ [offlineId data], failed)%list
      end
  end.

(** The body of the loop for any element.  For [null], [data.offlineId]
    throws in the [try], and again in the [catch] that builds the failed
    entry; that second exception leaves the loop ([inl], with the store as
    it is by then). *)
Definition sync_item (st : SyncState) (data : option Doc) : DB + SyncState :=
  match data with
  | None => inl (fst (fst st))
  | Some d => inr (sync_record st d)
  end.

(** [for (const data of offlineData)], left at the first exception that
    escapes the body. *)
Fixpoint sync_loop (st : SyncState) (items : list (option Doc)) : DB + SyncState :=
  match items with
  | [] => inr st
  | data :: rest =>
      match sync_item st data with
      | inl db => inl db
      | inr st' => sync_loop st' rest
      end
  end.

(** The answer of the route: the counts and the failed entries, or status
    500 (whose message, the text of the exception, is left out). *)
Inductive SyncAnswer : Type :=
| Synced (synced failed : nat) (failedItems : list (Id * Err))
| ServerError.

(** The route on a store; [offlineData] is [None] when [req.body] holds
    nothing that can be iterated, which throws before the loop begins. *)
Definition sync_upload (db : DB) (offlineData : option (list (option Doc)))
  : DB * SyncAnswer :=
  match offlineData with
  | None => (db, ServerError)
  | Some items =>
      match sync_loop (db, [], []) items with
      | inl db' => (db', ServerError)
      | inr (db', synced, failed) =>
          (db', Synced (List.length synced) (List.length failed) failed)
      end
  end.

End OfflineSync.

Arguments sync_record {Doc Id Err DB} offlineId findOne save st data.
Arguments sync_item {Doc Id Err DB} offlineId findOne save st data.
Arguments sync_loop {Doc Id Err DB} offlineId findOne save st items.
Arguments Synced {Id Err} synced failed failedItems.
Arguments ServerError {Id Err}.
Arguments sync_upload {Doc Id Err DB} offlineId findOne save db offlineData.

End Backend.

(** *** Further vocabulary *)

(** [st] with the events [evs] recorded on top of its trace, newest first. *)
Definition record_events (evs : list Event) (st : State) : State :=
  mkState (currentPose st) (targetPose st) (movementActive st) (emergencyStop st)
    (gsrValue st) (emgValue st) (heartRate st) (spo2 st) (lastServoUpdate st)
    (lastSensorRead st) (lastCloudUpload st) (sessionStartTime st)
    (currentPoseName st) (sessionID st) (attached st) (evs ++ trace st)%list.

(** The trace of [st'] is that of [st] with more events, each passing [p]. *)
Definition adds (p : Event -> bool) (st st' : State) : Prop :=
  exists evs, trace st' = (evs ++ trace st)%list /\ forallb p evs = true.

Definition is_post (e : Event) : bool :=
  match e with HttpPost _ => true | _ => false end.

(** What the loop may do to a servo: write an angle of [0,180] to one of
    the five fingers, or detach one; never attach. *)
Definition servo_safe (e : Event) : bool :=
  match e with
  | ServoWrite i a => (i <? NUM_FINGERS)%nat && (0 <=? a) && (a <=? 180)
  | ServoAttach _ _ => false
  | _ => true
  end.

(** The three forms a command line can take that change the state. *)
Definition normalized (cmd : string) : string :=
  WString.toLowerCase (WString.trim cmd).

(** A pass without serial input and without a button press. *)
Definition idle (inp : PassInput) : Prop :=
  serial_line inp = None /\ irq_early inp = false /\ irq_late inp = false.

(** Every pass of [ins] finds the servo gate open, the first one measured
    from the time stamp [last]. *)
Fixpoint servo_ticks (last : Z) (ins : list PassInput) : bool :=
  match ins with
  | [] => true
  | inp :: rest =>
      (wrap_ulong (ms_servo_gate inp - last) >=? SERVO_UPDATE_MS)
      && servo_ticks (ms_servo_stamp inp) rest
  end.

(** No character of [s] is a double quote or a backslash. *)
Fixpoint quote_free (s : string) : bool :=
  match s with
  | EmptyString => true
  | String c r =>
      negb (Ascii.eqb c "034"%char) && negb (Ascii.eqb c "092"%char) && quote_free r
  end.

Definition is_print (e : Event) : bool :=
  match e with SerialPrint _ => true | _ => false end.

(** Thirty-six idle passes, 20 ms apart, the first at clock reading 2020. *)
Definition steady_ticks : list PassInput :=
  map (fun k => pass_at (2000 + 20 * Z.of_nat k) None false) (seq 1 36).

Definition is_servo_event (e : Event) : bool :=
  match e with
  | ServoAttach _ _ | ServoWrite _ _ | ServoDetach _ => true
  | _ => false
  end.

(** The globals as [setup] leaves them, its serial output and delays apart. *)
Definition booted (b : BootInput) : State :=
  mkState [0; 0; 0; 0; 0] [0; 0; 0; 0; 0] false (irq_boot b) 0 0 0 0 0 0 0
    (ms_boot_start b) "REST"
    (WString.ofInt (ms_boot_id b) ++ "_" ++ WString.ofInt (random_id b))
    [true; true; true; true; true] [].

(** The pose name and the targets belong to one entry of the table. *)
Definition pose_consistent (st : State) : Prop :=
  exists p, In p poses /\ currentPoseName st = name p /\ targetPose st = angles p.

(** What each part of the sketch leaves alone: the fields it does not
    assign, gathered so that one equation says they are all unchanged. *)
Definition beside_motion (st : State) :=
  (targetPose st, emergencyStop st,
   (gsrValue st, emgValue st, heartRate st, spo2 st),
   (lastSensorRead st, lastCloudUpload st, sessionStartTime st),
   (currentPoseName st, sessionID st), attached st).

Definition beside_sensing (st : State) :=
  (currentPose st, targetPose st, movementActive st, emergencyStop st,
   (lastServoUpdate st, lastCloudUpload st, sessionStartTime st),
   (currentPoseName st, sessionID st), attached st, trace st).

Definition beside_upload (st : State) :=
  (currentPose st, targetPose st, movementActive st, emergencyStop st,
   (gsrValue st, emgValue st, heartRate st, spo2 st),
   (lastServoUpdate st, lastSensorRead st, sessionStartTime st),
   (currentPoseName st, sessionID st), attached st).

Definition beside_command (st : State) :=
  (currentPose st, movementActive st,
   (gsrValue st, emgValue st, heartRate st, spo2 st),
   (lastServoUpdate st, lastSensorRead st, lastCloudUpload st, sessionStartTime st),
   sessionID st, attached st).

Definition beside_stop (st : State) :=
  (currentPose st, targetPose st, movementActive st, emergencyStop st,
   (gsrValue st, emgValue st, heartRate st, spo2 st),
   (lastServoUpdate st, lastSensorRead st, lastCloudUpload st, sessionStartTime st),
   (currentPoseName st, sessionID st)).

Definition beside_flag (st : State) :=
  (currentPose st, targetPose st, movementActive st,
   (gsrValue st, emgValue st, heartRate st, spo2 st),
   (lastServoUpdate st, lastSensorRead st, lastCloudUpload st, sessionStartTime st),
   (currentPoseName st, sessionID st), attached st, trace st).

Arguments servo_body : simpl never.
Arguments updateServoPositions_at : simpl never.
Arguments updateServoPositions : simpl never.
Arguments setTargets : simpl never.
Arguments setPose_in : simpl never.
Arguments setPose : simpl never.
Arguments readSensors : simpl never.
Arguments createDataPayload : simpl never.
Arguments uploadToCloud : simpl never.
Arguments printSensorData : simpl never.
Arguments processCommand : simpl never.
Arguments handleEmergencyStop : simpl never.
Arguments initServos : simpl never.
Arguments setup : simpl never.
Arguments servo_task : simpl never.
Arguments sensor_task : simpl never.
Arguments cloud_task : simpl never.
Arguments command_task : simpl never.
Arguments loop : simpl never.

(* ================================================================== *)
(** * Properties *)

(** ** Machine arithmetic *)

Lemma wrap_int_small (z : Z) : - 2 ^ 31 <= z < 2 ^ 31 -> wrap_int z = z.
Proof.
  intros H. unfold wrap_int.
  rewrite Z.mod_small by lia. lia.
Qed.

Lemma next_angle_closed (s c t : Z) :
  0 < s -> angle_ok c -> angle_ok t ->
  next_angle s c t = if c <=? t then Z.min t (c + s) else Z.max t (c - s).
Proof.
  unfold angle_ok, next_angle, amin, amax. intros Hs Hc Ht.
  destruct (Z.eqb_spec c t) as [->|Hne].
  - rewrite Z.leb_refl. lia.
  - rewrite (wrap_int_small (t - c)) by lia.
    destruct (Z.leb_spec c t) as [Hle|Hgt].
    + replace (t - c >? 0) with true by (symmetry; apply Z.gtb_lt; lia).
      destruct (Z.ltb_spec s (t - c)); rewrite wrap_int_small; lia.
    + replace (t - c >? 0) with false
        by (symmetry; rewrite Z.gtb_ltb; apply Z.ltb_ge; lia).
      rewrite Z.gtb_ltb.
      destruct (Z.ltb_spec (t - c) (- s)); rewrite wrap_int_small; lia.
Qed.

Lemma next_angle_ok (s c t : Z) :
  0 < s -> angle_ok c -> angle_ok t -> angle_ok (next_angle s c t).
Proof.
  intros Hs Hc Ht. rewrite next_angle_closed by assumption.
  unfold angle_ok in *. destruct (c <=? t) eqn:E; lia.
Qed.

(** ** Arrays *)

Lemma array_set_length {A} (l : list A) i v :
  List.length (array_set l i v) = List.length l.
Proof.
  revert i; induction l as [|h t IH]; intros [|i]; simpl; auto.
Qed.

Lemma nth_array_set_same {A} (l : list A) i v d :
  (i < List.length l)%nat -> nth i (array_set l i v) d = v.
Proof.
  revert i; induction l as [|h t IH]; intros [|i] H; simpl in *;
    try lia; auto. apply IH; lia.
Qed.

Lemma nth_array_set_other {A} (l : list A) i k v d :
  k <> i -> nth k (array_set l i v) d = nth k l d.
Proof.
  revert i k; induction l as [|h t IH]; intros [|i] [|k] H; simpl;
    try reflexivity; try congruence. apply IH; congruence.
Qed.

Lemma array_set_beyond {A} (l : list A) i v :
  (List.length l <= i)%nat -> array_set l i v = l.
Proof.
  revert i; induction l as [|h t IH]; intros [|i] H; simpl in *;
    try reflexivity; try lia. f_equal; apply IH; lia.
Qed.

Lemma Forall_array_set {A} (P : A -> Prop) (l : list A) i v :
  Forall P l -> P v -> Forall P (array_set l i v).
Proof.
  intros Hl Hv; revert i; induction Hl as [|h t Hh Ht IH]; intros [|i];
    simpl; auto.
Qed.

Lemma nth_eq_ext {A} (l1 l2 : list A) d :
  List.length l1 = List.length l2 ->
  (forall k, (k < List.length l1)%nat -> nth k l1 d = nth k l2 d) -> l1 = l2.
Proof.
  revert l2; induction l1 as [|a l1 IH]; intros [|b l2] Hlen Hnth;
    simpl in *; try discriminate; auto.
  f_equal.
  - apply (Hnth 0%nat); lia.
  - apply IH; [lia|]. intros k Hk. apply (Hnth (S k)); lia.
Qed.

(** ** Counted loops *)

Lemma for_loop_inv {S : Type} (P : S -> Prop) (body : nat -> S -> S) :
  (forall i s, P s -> P (body i s)) ->
  forall n from s, P s -> P (for_loop n from body s).
Proof.
  intros Hbody n; induction n as [|n IH]; intros from s Hs; simpl; auto.
Qed.

Lemma iterate_succ n f st : iterate (S n) f st = iterate n f (f st).
Proof. reflexivity. Qed.

Lemma finger_nth i st : nth i (currentPose st) 0 = finger i st.
Proof. reflexivity. Qed.

Lemma goal_nth i st : nth i (targetPose st) 0 = goal i st.
Proof. reflexivity. Qed.

Lemma mech_set_lastServoUpdate v st : mech (set_lastServoUpdate v st) = mech st.
Proof. reflexivity. Qed.

Lemma mech_set_lastSensorRead v st : mech (set_lastSensorRead v st) = mech st.
Proof. reflexivity. Qed.

Lemma mech_set_lastCloudUpload v st : mech (set_lastCloudUpload v st) = mech st.
Proof. reflexivity. Qed.

Lemma mech_emit e st : mech (emit e st) = mech st.
Proof. reflexivity. Qed.

(** ** The motion step *)

Section MotionStep.

Variable speed : Z.

Lemma servo_body_target i st :
  targetPose (servo_body speed i st) = targetPose st.
Proof. unfold servo_body. destruct (_ =? _); reflexivity. Qed.

Lemma servo_body_length i st :
  List.length (currentPose (servo_body speed i st)) = List.length (currentPose st).
Proof.
  unfold servo_body. destruct (_ =? _); simpl; auto using array_set_length.
Qed.

Lemma servo_body_same i st :
  (i < List.length (currentPose st))%nat ->
  finger i (servo_body speed i st) = next_angle speed (finger i st) (goal i st).
Proof.
  intros Hi. unfold finger, goal, servo_body, next_angle.
  destruct (_ =? _); simpl; [reflexivity|].
  now rewrite nth_array_set_same.
Qed.

Lemma servo_body_other i k st :
  k <> i -> finger k (servo_body speed i st) = finger k st.
Proof.
  intros Hk. unfold finger, servo_body.
  destruct (_ =? _); simpl; [reflexivity|].
  now rewrite nth_array_set_other.
Qed.

Lemma servo_loop_target n from st :
  targetPose (for_loop n from (servo_body speed) st) = targetPose st.
Proof.
  apply (for_loop_inv (fun s => targetPose s = targetPose st)); auto.
  intros i s Hs. now rewrite servo_body_target.
Qed.

Lemma servo_loop_length n from st :
  List.length (currentPose (for_loop n from (servo_body speed) st))
  = List.length (currentPose st).
Proof.
  apply (for_loop_inv
           (fun s => List.length (currentPose s) = List.length (currentPose st)));
    auto.
  intros i s Hs. now rewrite servo_body_length.
Qed.

(** Fingers below [from] are out of the loop's reach. *)
Lemma servo_loop_below n : forall from st k,
  (k < from)%nat ->
  finger k (for_loop n from (servo_body speed) st) = finger k st.
Proof.
  induction n as [|n IH]; intros from st k Hk; simpl; [reflexivity|].
  rewrite IH by lia. apply servo_body_other; lia.
Qed.

(** Each finger in the loop's range advances once, towards its own target. *)
Lemma servo_loop_within n : forall from st k,
  (from <= k < from + n)%nat ->
  (k < List.length (currentPose st))%nat ->
  finger k (for_loop n from (servo_body speed) st)
  = next_angle speed (finger k st) (goal k st).
Proof.
  induction n as [|n IH]; intros from st k Hk Hlen; simpl; [lia|].
  destruct (Nat.eq_dec k from) as [->|Hne].
  - rewrite servo_loop_below by lia. now apply servo_body_same.
  - rewrite IH; [| lia | now rewrite servo_body_length].
    unfold goal. rewrite servo_body_target.
    now rewrite servo_body_other.
Qed.

Lemma update_target st :
  targetPose (updateServoPositions_at speed st) = targetPose st.
Proof. unfold updateServoPositions_at. now rewrite servo_loop_target. Qed.

Lemma update_length st :
  List.length (currentPose (updateServoPositions_at speed st))
  = List.length (currentPose st).
Proof. unfold updateServoPositions_at. now rewrite servo_loop_length. Qed.

Lemma update_finger st k :
  (k < NUM_FINGERS)%nat -> (k < List.length (currentPose st))%nat ->
  finger k (updateServoPositions_at speed st)
  = next_angle speed (finger k st) (goal k st).
Proof.
  intros Hk Hlen. unfold updateServoPositions_at.
  rewrite servo_loop_within; [reflexivity | lia | exact Hlen].
Qed.

Lemma update_attached st :
  attached (updateServoPositions_at speed st) = attached st.
Proof.
  unfold updateServoPositions_at.
  apply (for_loop_inv (fun s => attached s = attached st)); auto.
  intros i s Hs. unfold servo_body. destruct (_ =? _); simpl; auto.
Qed.

Lemma iterate_update_target n : forall st,
  targetPose (iterate n (updateServoPositions_at speed) st) = targetPose st.
Proof.
  induction n as [|n IH]; intros st; [reflexivity|].
  rewrite iterate_succ, IH. apply update_target.
Qed.

Lemma iterate_update_length n : forall st,
  List.length (currentPose (iterate n (updateServoPositions_at speed) st))
  = List.length (currentPose st).
Proof.
  induction n as [|n IH]; intros st; [reflexivity|].
  rewrite iterate_succ, IH. apply update_length.
Qed.

Hypothesis speed_pos : 0 < speed.

(** Where finger [k] stands after [n] motion steps. *)
Lemma iterate_update_finger n : forall st k,
  (k < NUM_FINGERS)%nat -> (k < List.length (currentPose st))%nat ->
  angle_ok (finger k st) -> angle_ok (goal k st) ->
  finger k (iterate n (updateServoPositions_at speed) st)
  = if finger k st <=? goal k st
    then Z.min (goal k st) (finger k st + Z.of_nat n * speed)
    else Z.max (goal k st) (finger k st - Z.of_nat n * speed).
Proof.
  induction n as [|n IH]; intros st k Hk Hlen Hc Ht.
  - change (iterate 0 (updateServoPositions_at speed) st) with st.
    unfold angle_ok in *.
    destruct (Z.leb_spec (finger k st) (goal k st)); lia.
  - rewrite iterate_succ.
    assert (Hn : 0 <= Z.of_nat n * speed) by nia.
    assert (Hgoal : goal k (updateServoPositions_at speed st) = goal k st)
      by (rewrite <- !goal_nth; f_equal; apply update_target).
    assert (Hfin := update_finger st k Hk Hlen).
    rewrite next_angle_closed in Hfin by assumption.
    rewrite IH; try assumption.
    + rewrite Hgoal, Hfin. rewrite Nat2Z.inj_succ, Z.mul_succ_l.
      unfold angle_ok in *.
      destruct (Z.leb_spec (finger k st) (goal k st));
        match goal with
        | |- context [?a <=? ?b] => destruct (Z.leb_spec a b)
        end; lia.
    + rewrite update_length. exact Hlen.
    + rewrite update_finger by assumption. apply next_angle_ok; assumption.
    + rewrite Hgoal. exact Ht.
Qed.

End MotionStep.

Lemma ceil_div_spec (d s : Z) :
  0 <= d -> 0 < s -> s * (ceil_div d s - 1) < d <= s * ceil_div d s.
Proof.
  intros Hd Hs. unfold ceil_div.
  pose proof (Z.div_mod (d + s - 1) s ltac:(lia)) as Hdm.
  pose proof (Z.mod_pos_bound (d + s - 1) s Hs) as Hb.
  lia.
Qed.

Lemma ceil_div_nonneg (d s : Z) : 0 <= d -> 0 < s -> 0 <= ceil_div d s.
Proof.
  intros Hd Hs. unfold ceil_div. apply Z.div_pos; lia.
Qed.

(** ** C2: bounded-rate interpolation *)

(** C2.  For a finger whose current angle C and target angle T both lie in
    [0,180], and any step size [speed > 0], repeated motion steps bring the
    current angle to T in exactly ceil(|T - C| / speed) ticks: it equals T
    after that many ticks, never before, and stays there; every tick moves
    the finger by at most [speed] and never away from T; the angle never
    leaves the interval between C and T (no overshoot); and the last tick
    moves it by the remainder |T - C| mod speed when that is nonzero (by
    [speed] otherwise). *)
Theorem C2_bounded_rate_interpolation (speed : Z) (st : State) (i : nat) :
  0 < speed -> (i < NUM_FINGERS)%nat -> well_sized st ->
  angle_ok (finger i st) -> angle_ok (goal i st) ->
  let C := finger i st in
  let T := goal i st in
  let D := Z.abs (T - C) in
  let N := Z.to_nat (ceil_div D speed) in
  let pos := fun k => finger i (iterate k (updateServoPositions_at speed) st) in
  pos N = T /\
  (forall k, (k < N)%nat -> pos k <> T) /\
  (forall k, (N <= k)%nat -> pos k = T) /\
  (forall k, Z.abs (pos (S k) - pos k) <= speed /\
             Z.abs (T - pos (S k)) <= Z.abs (T - pos k)) /\
  (forall k, Z.min C T <= pos k <= Z.max C T) /\
  (forall k, S k = N ->
             Z.abs (pos (S k) - pos k)
             = if D mod speed =? 0 then speed else D mod speed).
Proof.
  intros Hs Hi [Hlen _] Hc Ht C T D N pos.
  assert (Hpos : forall k,
             pos k = if C <=? T then Z.min T (C + Z.of_nat k * speed)
                     else Z.max T (C - Z.of_nat k * speed)).
  { intros k. unfold pos, C, T.
    apply iterate_update_finger; auto. rewrite Hlen; exact Hi. }
  assert (HD : 0 <= D) by (unfold D; lia).
  pose proof (ceil_div_spec D speed HD Hs) as Hceil.
  pose proof (ceil_div_nonneg D speed HD Hs) as Hnn.
  assert (HN : Z.of_nat N = ceil_div D speed) by (unfold N; lia).
  rewrite <- HN in Hceil. clear Hnn.
  assert (Hmul : forall k, 0 <= Z.of_nat k * speed) by (intros; nia).
  assert (Hlow : forall k, (k < N)%nat -> Z.of_nat k * speed < D).
  { intros k Hk.
    assert (Z.of_nat k * speed <= (Z.of_nat N - 1) * speed)
      by (apply Z.mul_le_mono_nonneg_r; lia).
    lia. }
  assert (Hhigh : forall k, (N <= k)%nat -> D <= Z.of_nat k * speed).
  { intros k Hk.
    assert (Z.of_nat N * speed <= Z.of_nat k * speed)
      by (apply Z.mul_le_mono_nonneg_r; lia).
    lia. }
  unfold angle_ok in Hc, Ht. fold C in Hc. fold T in Ht.
  repeat split.
  - rewrite Hpos. specialize (Hhigh N (le_n _)). unfold D in Hhigh.
    destruct (Z.leb_spec C T); lia.
  - intros k Hk. rewrite Hpos. specialize (Hlow k Hk). unfold D in Hlow.
    destruct (Z.leb_spec C T); lia.
  - intros k Hk. rewrite Hpos. specialize (Hhigh k Hk). unfold D in Hhigh.
    destruct (Z.leb_spec C T); lia.
  - rewrite !Hpos. rewrite Nat2Z.inj_succ, Z.mul_succ_l.
    specialize (Hmul k). destruct (Z.leb_spec C T); lia.
  - rewrite !Hpos. rewrite Nat2Z.inj_succ, Z.mul_succ_l.
    specialize (Hmul k). destruct (Z.leb_spec C T); lia.
  - rewrite Hpos. specialize (Hmul k). destruct (Z.leb_spec C T); lia.
  - rewrite Hpos. specialize (Hmul k). destruct (Z.leb_spec C T); lia.
  - intros k Hk.
    assert (Hk1 : Z.of_nat k = Z.of_nat N - 1) by lia.
    pose proof (Hlow k ltac:(lia)) as Hl.
    pose proof (Hhigh (S k) ltac:(lia)) as Hh.
    pose proof (Z.div_mod D speed ltac:(lia)) as Hdm.
    pose proof (Z.mod_pos_bound D speed Hs) as Hb.
    set (q := D / speed) in *. set (r := D mod speed) in *.
    assert (Hstep : Z.abs (pos (S k) - pos k) = D - Z.of_nat k * speed).
    { rewrite !Hpos. rewrite Nat2Z.inj_succ, Z.mul_succ_l in *.
      unfold D in *. destruct (Z.leb_spec C T); lia. }
    rewrite Hstep.
    destruct (Z.eqb_spec r 0) as [Hr|Hr].
    + assert (q = Z.of_nat N) by nia. subst q. nia.
    + assert (q = Z.of_nat N - 1) by nia. subst q. nia.
Qed.

(** Finger 1 on its way from 0 to 180 in steps of 7: 26 ticks, the last one
    of 5 degrees. *)
Lemma C2_bounded_rate_interpolation_witness :
  let st := fist_commanded in
  let N := Z.to_nat (ceil_div (Z.abs (goal 1 st - finger 1 st)) 7) in
  (finger 1 st = 0 /\ goal 1 st = 180 /\ N = 26%nat) /\
  finger 1 (iterate N (updateServoPositions_at 7) st) = goal 1 st /\
  (forall k, S k = N ->
     Z.abs (finger 1 (iterate (S k) (updateServoPositions_at 7) st)
            - finger 1 (iterate k (updateServoPositions_at 7) st))
     = if Z.abs (goal 1 st - finger 1 st) mod 7 =? 0 then 7
       else Z.abs (goal 1 st - finger 1 st) mod 7).
Proof.
  cbv zeta.
  assert (H1 : 0 < 7) by lia.
  assert (H2 : (1 < NUM_FINGERS)%nat) by (unfold NUM_FINGERS; lia).
  assert (H3 : well_sized fist_commanded) by (repeat split; vm_compute; reflexivity).
  assert (H4 : angle_ok (finger 1 fist_commanded))
    by (split; vm_compute; discriminate).
  assert (H5 : angle_ok (goal 1 fist_commanded))
    by (split; vm_compute; discriminate).
  destruct (C2_bounded_rate_interpolation 7 fist_commanded 1 H1 H2 H3 H4 H5)
    as (Hreach & _ & _ & _ & _ & Hlast).
  split; [repeat split; vm_compute; reflexivity|].
  split; [exact Hreach | exact Hlast].
Defined.

(** ** Frame properties of the operations *)

Lemma Inv_mech st st' : mech st' = mech st -> Inv st -> Inv st'.
Proof.
  unfold mech, Inv, well_sized, angles_in_range.
  intros H; injection H as -> -> ->. auto.
Qed.

Lemma nth_angle_ok (l : list Z) j : Forall angle_ok l -> angle_ok (nth j l 0).
Proof.
  intros H. destruct (Nat.lt_ge_cases j (List.length l)) as [Hj|Hj].
  - now apply Forall_nth.
  - rewrite nth_overflow by exact Hj. unfold angle_ok; lia.
Qed.

Lemma poses_in_range : Forall (fun p => Forall angle_ok (angles p)) poses.
Proof. unfold poses, angle_ok. repeat constructor; simpl; lia. Qed.

Lemma find_pose_sound tbl n p :
  find_pose tbl n = Some p -> In p tbl /\ name p = n.
Proof.
  induction tbl as [|q tbl IH]; simpl; [discriminate|].
  destruct (String.eqb_spec (name q) n) as [Heq|Hne].
  - intros [= ->]. auto.
  - intros H. destruct (IH H). auto.
Qed.

Lemma setTargets_frame a st :
  currentPose (setTargets a st) = currentPose st /\
  attached (setTargets a st) = attached st /\
  emergencyStop (setTargets a st) = emergencyStop st /\
  trace (setTargets a st) = trace st /\
  List.length (targetPose (setTargets a st)) = List.length (targetPose st).
Proof.
  unfold setTargets. simpl. rewrite !array_set_length. auto.
Qed.

Lemma setTargets_in_range a st :
  Forall angle_ok a -> Forall angle_ok (targetPose st) ->
  Forall angle_ok (targetPose (setTargets a st)).
Proof.
  intros Ha Ht. unfold setTargets. simpl.
  repeat apply Forall_array_set; auto using nth_angle_ok.
Qed.

Lemma setTargets_goal a st j :
  List.length (targetPose st) = NUM_FINGERS -> (j < NUM_FINGERS)%nat ->
  goal j (setTargets a st) = nth j a 0.
Proof.
  intros Hlen Hj. unfold goal, setTargets. simpl.
  destruct (targetPose st) as [|t0 [|t1 [|t2 [|t3 [|t4 [|]]]]]];
    try discriminate.
  unfold NUM_FINGERS in Hj.
  destruct j as [|[|[|[|[|j]]]]]; try reflexivity; lia.
Qed.

Lemma poses_sized : Forall (fun p => List.length (angles p) = NUM_FINGERS) poses.
Proof. unfold poses. repeat constructor. Qed.

Lemma setTargets_copies a st :
  List.length a = NUM_FINGERS -> List.length (targetPose st) = NUM_FINGERS ->
  targetPose (setTargets a st) = a.
Proof.
  intros Ha Ht. apply (nth_eq_ext _ _ 0).
  - rewrite (proj2 (proj2 (proj2 (proj2 (setTargets_frame a st))))). congruence.
  - intros k Hk.
    rewrite (proj2 (proj2 (proj2 (proj2 (setTargets_frame a st))))) in Hk.
    rewrite goal_nth. apply setTargets_goal; congruence.
Qed.

(** A name the table holds: the targets become its vector, the pose name
    the upper-cased name. *)
Lemma setPose_found n st p :
  well_sized st -> find_pose poses (WString.toUpperCase n) = Some p ->
  targetPose (setPose n st) = angles p.
Proof.
  intros (_ & Ht & _) Hf. unfold setPose, setPose_in. rewrite Hf. cbv zeta.
  apply setTargets_copies; [|exact Ht].
  apply find_pose_sound in Hf as [Hin _].
  pose proof poses_sized as Hall. rewrite Forall_forall in Hall. now apply Hall.
Qed.

Lemma setPose_found_name n st p :
  find_pose poses (WString.toUpperCase n) = Some p ->
  currentPoseName (setPose n st) = WString.toUpperCase n.
Proof.
  intros Hf. unfold setPose, setPose_in. rewrite Hf. cbv zeta. reflexivity.
Qed.

(** A name the table does not hold: nothing but the notice. *)
Lemma setPose_not_found n st :
  find_pose poses (WString.toUpperCase n) = None ->
  setPose n st = println "✗ Pose not found" st.
Proof. intros Hf. unfold setPose, setPose_in. now rewrite Hf. Qed.

Lemma setPose_current n st : currentPose (setPose n st) = currentPose st.
Proof.
  unfold setPose, setPose_in. destruct (find_pose _ _); [|reflexivity].
  now rewrite (proj1 (setTargets_frame _ _)).
Qed.

Lemma setPose_attached n st : attached (setPose n st) = attached st.
Proof.
  unfold setPose, setPose_in. destruct (find_pose _ _); [|reflexivity].
  now rewrite (proj1 (proj2 (setTargets_frame _ _))).
Qed.

Lemma setPose_target_length n st :
  List.length (targetPose (setPose n st)) = List.length (targetPose st).
Proof.
  unfold setPose, setPose_in. destruct (find_pose _ _); [|reflexivity].
  now rewrite (proj2 (proj2 (proj2 (proj2 (setTargets_frame _ _))))).
Qed.

Lemma setPose_in_range n st :
  Forall angle_ok (targetPose st) -> Forall angle_ok (targetPose (setPose n st)).
Proof.
  intros Ht. unfold setPose, setPose_in.
  destruct (find_pose _ _) as [p|] eqn:Hf; [|exact Ht].
  apply setTargets_in_range; [|exact Ht].
  apply find_pose_sound in Hf as [Hin _].
  pose proof poses_in_range as Hall.
  rewrite Forall_forall in Hall. now apply Hall.
Qed.

Lemma setPose_Inv n st : Inv st -> Inv (setPose n st).
Proof.
  unfold Inv, well_sized, angles_in_range.
  intros [(Hc & Ht & Ha) [Hrc Hrt]].
  rewrite setPose_current, setPose_attached, setPose_target_length.
  auto using setPose_in_range.
Qed.

Ltac command_cases :=
  unfold processCommand;
  repeat match goal with
         | |- context [if WString.startsWith ?a ?b then _ else _] =>
             destruct (WString.startsWith a b)
         | |- context [if String.eqb ?a ?b then _ else _] =>
             destruct (String.eqb a b)
         end.

Lemma processCommand_current cmd st :
  currentPose (processCommand cmd st) = currentPose st.
Proof.
  command_cases; try reflexivity. apply setPose_current.
Qed.

Lemma processCommand_attached cmd st :
  attached (processCommand cmd st) = attached st.
Proof.
  command_cases; try reflexivity. apply setPose_attached.
Qed.

Lemma processCommand_Inv cmd st : Inv st -> Inv (processCommand cmd st).
Proof.
  command_cases; try (apply Inv_mech; reflexivity). apply setPose_Inv.
Qed.

Lemma readSensors_mech inp st : mech (readSensors inp st) = mech st.
Proof. unfold readSensors. destruct (_ >? _); reflexivity. Qed.

Lemma uploadToCloud_mech inp st : mech (uploadToCloud inp st) = mech st.
Proof.
  unfold uploadToCloud. destruct (negb _); [reflexivity|].
  destruct (connect_ok inp); reflexivity.
Qed.

Lemma fire_mech irq st : mech (fire irq st) = mech st.
Proof. destruct irq; reflexivity. Qed.

Lemma servo_body_Inv speed i st :
  0 < speed -> Inv st -> Inv (servo_body speed i st).
Proof.
  unfold Inv, well_sized, angles_in_range.
  intros Hs [(Hc & Ht & Ha) [Hrc Hrt]].
  pose proof (next_angle_ok speed (finger i st) (goal i st) Hs
                (nth_angle_ok _ i Hrc) (nth_angle_ok _ i Hrt)) as Hnext.
  unfold next_angle, finger, goal in Hnext. unfold servo_body.
  destruct (_ =? _); simpl; [auto|].
  rewrite array_set_length. repeat split; auto.
  now apply Forall_array_set.
Qed.

(** The invariant holds after each iteration of the loop of the motion step,
    not only at its end. *)
Lemma servo_loop_Inv speed n st :
  0 < speed -> Inv st ->
  Inv (for_loop n 0 (servo_body speed) (set_movementActive false st)).
Proof.
  intros Hs H. apply (for_loop_inv Inv).
  - intros i s. now apply servo_body_Inv.
  - apply (Inv_mech st); [reflexivity | exact H].
Qed.

Lemma update_Inv speed st :
  0 < speed -> Inv st -> Inv (updateServoPositions_at speed st).
Proof.
  unfold Inv, well_sized, angles_in_range.
  intros Hs [(Hc & Ht & Ha) [Hrc Hrt]].
  rewrite update_length, update_target, update_attached.
  repeat split; auto.
  apply Forall_nth. intros k d Hk. rewrite update_length in Hk.
  rewrite (nth_indep _ d 0) by (rewrite update_length; exact Hk).
  rewrite finger_nth.
  rewrite update_finger by (unfold NUM_FINGERS in *; lia).
  apply next_angle_ok; auto; rewrite <- ?finger_nth, <- ?goal_nth;
    apply nth_angle_ok; assumption.
Qed.

Lemma handleEmergencyStop_frame st :
  currentPose (handleEmergencyStop st) = currentPose st /\
  targetPose (handleEmergencyStop st) = targetPose st /\
  emergencyStop (handleEmergencyStop st) = emergencyStop st /\
  movementActive (handleEmergencyStop st) = movementActive st /\
  lastServoUpdate (handleEmergencyStop st) = lastServoUpdate st /\
  List.length (attached (handleEmergencyStop st)) = List.length (attached st).
Proof.
  unfold handleEmergencyStop. simpl. rewrite !array_set_length. auto 10.
Qed.

Lemma handleEmergencyStop_Inv st : Inv st -> Inv (handleEmergencyStop st).
Proof.
  unfold Inv, well_sized, angles_in_range.
  destruct (handleEmergencyStop_frame st) as (-> & -> & _ & _ & _ & ->). auto.
Qed.

Lemma servo_task_Inv inp st : Inv st -> Inv (servo_task inp st).
Proof.
  intros H. unfold servo_task. destruct (_ >=? _); [|exact H].
  apply (Inv_mech (updateServoPositions st)); [apply mech_set_lastServoUpdate|].
  apply update_Inv; [reflexivity | exact H].
Qed.

Lemma sensor_task_mech inp st : mech (sensor_task inp st) = mech st.
Proof.
  unfold sensor_task. destruct (_ >=? _); [|reflexivity].
  rewrite mech_set_lastSensorRead. apply readSensors_mech.
Qed.

Lemma cloud_task_mech inp st : mech (cloud_task inp st) = mech st.
Proof.
  unfold cloud_task. destruct (_ >=? _); [|reflexivity].
  rewrite mech_set_lastCloudUpload. apply uploadToCloud_mech.
Qed.

Lemma command_task_Inv inp st : Inv st -> Inv (command_task inp st).
Proof.
  intros H. unfold command_task. destruct (serial_line inp) as [l|]; [|exact H].
  apply processCommand_Inv. apply (Inv_mech st); [apply mech_emit | exact H].
Qed.

Lemma loop_Inv inp st : Inv st -> Inv (loop inp st).
Proof.
  intros H. unfold loop. destruct (emergencyStop st).
  - apply (Inv_mech (handleEmergencyStop st)).
    + now rewrite !fire_mech.
    + now apply handleEmergencyStop_Inv.
  - cbv zeta.
    eapply Inv_mech; [apply fire_mech|].
    apply command_task_Inv.
    eapply Inv_mech; [apply fire_mech|].
    eapply Inv_mech; [apply cloud_task_mech|].
    eapply Inv_mech; [apply sensor_task_mech|].
    now apply servo_task_Inv.
Qed.

Lemma run_Inv ins : forall st, Inv st -> Inv (run ins st).
Proof.
  induction ins as [|i ins IH]; intros st H; simpl; auto using loop_Inv.
Qed.

(** ** Start-up *)

Lemma mech_println m st : mech (println m st) = mech st.
Proof. reflexivity. Qed.

Lemma mech_print m st : mech (print m st) = mech st.
Proof. reflexivity. Qed.

Lemma mech_set_sessionID v st : mech (set_sessionID v st) = mech st.
Proof. reflexivity. Qed.

Lemma mech_set_sessionStartTime v st : mech (set_sessionStartTime v st) = mech st.
Proof. reflexivity. Qed.

Lemma initSensors_mech found st : mech (initSensors found st) = mech st.
Proof. unfold initSensors. destruct (negb found); reflexivity. Qed.

Lemma initWiFi_mech b st : mech (initWiFi b st) = mech st.
Proof.
  unfold initWiFi.
  assert (H : mech (for_loop (wifi_polls b) 0
                      (fun _ st => print "." (emit (Delay 500) st))
                      (print "Connecting to WiFi" st)) = mech st).
  { apply (for_loop_inv (fun s => mech s = mech st)); auto. }
  destruct (wifi_joined b); cbv zeta;
    rewrite ?mech_println, ?mech_print; exact H.
Qed.

Lemma initServos_mech st :
  well_sized st ->
  mech (initServos st)
  = (repeat 0 NUM_FINGERS, repeat 0 NUM_FINGERS, repeat true NUM_FINGERS).
Proof.
  intros (Hc & Ht & Ha). destruct st as [cur tgt ? ? ? ? ? ? ? ? ? ? ? ? att ?].
  simpl in Hc, Ht, Ha.
  destruct cur as [|c0 [|c1 [|c2 [|c3 [|c4 [|]]]]]]; try discriminate.
  destruct tgt as [|t0 [|t1 [|t2 [|t3 [|t4 [|]]]]]]; try discriminate.
  destruct att as [|a0 [|a1 [|a2 [|a3 [|a4 [|]]]]]]; try discriminate.
  reflexivity.
Qed.

Lemma setup_mech b st :
  well_sized st ->
  mech (setup b st)
  = (repeat 0 NUM_FINGERS, repeat 0 NUM_FINGERS, repeat true NUM_FINGERS).
Proof.
  intros H. unfold setup. cbv zeta.
  rewrite fire_mech.
  rewrite !mech_println, mech_set_sessionStartTime, mech_set_sessionID.
  rewrite initWiFi_mech, initSensors_mech.
  apply initServos_mech. exact H.
Qed.

Lemma power_on_sized : well_sized power_on.
Proof. repeat split. Qed.

Lemma boot_Inv b : Inv (boot b).
Proof.
  unfold boot.
  pose proof (setup_mech b power_on power_on_sized) as H.
  unfold mech in H. injection H as Hc Ht Ha.
  unfold Inv, well_sized, angles_in_range. rewrite Hc, Ht, Ha.
  unfold angle_ok, NUM_FINGERS; simpl.
  repeat split; repeat constructor; lia.
Qed.

(** ** The tripped state *)

Lemma fire_tripped irq st : emergencyStop st = true -> fire irq st = st.
Proof.
  intros H. destruct irq; [|reflexivity].
  destruct st; simpl in H; subst; reflexivity.
Qed.

Lemma loop_tripped inp st :
  emergencyStop st = true -> loop inp st = handleEmergencyStop st.
Proof.
  intros H. unfold loop. rewrite H. cbv zeta.
  assert (Hh : emergencyStop (handleEmergencyStop st) = true).
  { destruct (handleEmergencyStop_frame st) as (_ & _ & -> & _). exact H. }
  rewrite (fire_tripped (irq_early inp)) by exact Hh.
  apply fire_tripped. exact Hh.
Qed.

Lemma run_tripped ins : forall st,
  emergencyStop st = true ->
  run ins st = iterate (List.length ins) handleEmergencyStop st.
Proof.
  induction ins as [|i ins IH]; intros st H; [reflexivity|].
  change (run (i :: ins) st) with (run ins (loop i st)).
  change (List.length (i :: ins)) with (S (List.length ins)).
  rewrite iterate_succ, loop_tripped by exact H.
  apply IH. destruct (handleEmergencyStop_frame st) as (_ & _ & -> & _). exact H.
Qed.

Lemma handleEmergencyStop_trace st :
  trace (handleEmergencyStop st) = (stop_events ++ trace st)%list.
Proof. reflexivity. Qed.

Lemma handleEmergencyStop_detaches st :
  List.length (attached st) = NUM_FINGERS -> all_detached (handleEmergencyStop st).
Proof.
  intros H. unfold all_detached, handleEmergencyStop. simpl.
  destruct (attached st) as [|a0 [|a1 [|a2 [|a3 [|a4 [|]]]]]]; try discriminate.
  reflexivity.
Qed.

Lemma concat_repeat_comm {A} (l : list A) n :
  (l ++ List.concat (repeat l n) = List.concat (repeat l n) ++ l)%list.
Proof.
  induction n as [|n IH]; [simpl; now rewrite app_nil_r|].
  change (List.concat (repeat l (S n)))
    with (l ++ List.concat (repeat l n))%list.
  rewrite IH at 1. now rewrite app_assoc.
Qed.

Lemma concat_repeat_snoc {A} (l : list A) n :
  List.concat (repeat l (S n)) = (List.concat (repeat l n) ++ l)%list.
Proof. apply concat_repeat_comm. Qed.

(** What [n] passes through the fail-safe path leave behind. *)
Lemma stopped_passes n : forall st,
  let st' := iterate n handleEmergencyStop st in
  emergencyStop st' = emergencyStop st /\
  currentPose st' = currentPose st /\
  targetPose st' = targetPose st /\
  lastServoUpdate st' = lastServoUpdate st /\
  movementActive st' = movementActive st /\
  trace st' = (List.concat (repeat stop_events n) ++ trace st)%list /\
  (List.length (attached st) = NUM_FINGERS -> n <> O -> all_detached st').
Proof.
  induction n as [|n IH]; intros st.
  - cbv zeta. change (iterate 0 handleEmergencyStop st) with st.
    repeat split; auto. intros _ H; now elim H.
  - cbv zeta. rewrite iterate_succ.
    destruct (IH (handleEmergencyStop st)) as (He & Hc & Ht & Hl & Hm & Htr & Hd).
    destruct (handleEmergencyStop_frame st) as (Fc & Ft & Fe & Fm & Fl & Fa).
    rewrite He, Hc, Ht, Hl, Hm, Htr, Fe, Fc, Ft, Fl, Fm.
    repeat split; auto.
    + rewrite handleEmergencyStop_trace.
      rewrite concat_repeat_snoc. now rewrite <- app_assoc.
    + intros Ha _. destruct n as [|n].
      * change (iterate 0 handleEmergencyStop (handleEmergencyStop st))
          with (handleEmergencyStop st).
        now apply handleEmergencyStop_detaches.
      * apply Hd; [|discriminate]. now rewrite Fa.
Qed.

Lemma events_since_app st st' new :
  trace st' = (new ++ trace st)%list -> events_since st st' = new.
Proof.
  intros H. unfold events_since. rewrite H, length_app.
  replace (List.length new + List.length (trace st) - List.length (trace st))%nat
    with (List.length new + 0)%nat by lia.
  rewrite firstn_app_2. simpl. apply app_nil_r.
Qed.

Lemma stop_events_repeat (p : Event -> bool) n :
  existsb p stop_events = false ->
  existsb p (List.concat (repeat stop_events n)) = false.
Proof.
  intros H. induction n as [|n IH]; [reflexivity|].
  change (repeat stop_events (S n)) with (stop_events :: repeat stop_events n).
  change (List.concat (stop_events :: repeat stop_events n))
    with (stop_events ++ List.concat (repeat stop_events n))%list.
  now rewrite existsb_app, H, IH.
Qed.

Lemma tripped_run_frame st ins :
  emergencyStop st = true ->
  emergencyStop (run ins st) = true /\ currentPose (run ins st) = currentPose st.
Proof.
  intros H. rewrite run_tripped by exact H.
  destruct (stopped_passes (List.length ins) st) as (-> & -> & _). auto.
Qed.

(** ** C1: the tripped scheduler is fail-safe *)

(** C1.  Once the trip flag is set when a pass of the loop begins, every
    later pass takes the fail-safe path, whatever the inputs of those passes
    are and whatever targets are still pending: the flag stays set, the
    motion step is not executed (no servo is written, the motion time stamp
    and the moving flag are left as they were), no current or target angle
    changes, and from the first such pass on all five servos are detached.
    No pass of the loop ever leaves this state. *)
Theorem C1_tripped_is_fail_safe (st : State) (ins : list PassInput) :
  well_sized st -> emergencyStop st = true ->
  let st' := run ins st in
  emergencyStop st' = true /\
  currentPose st' = currentPose st /\
  targetPose st' = targetPose st /\
  lastServoUpdate st' = lastServoUpdate st /\
  movementActive st' = movementActive st /\
  existsb is_servo_write (events_since st st') = false /\
  (ins <> [] -> all_detached st').
Proof.
  intros (_ & _ & Ha) H. cbv zeta. rewrite run_tripped by exact H.
  destruct (stopped_passes (List.length ins) st)
    as (He & Hc & Ht & Hl & Hm & Htr & Hd).
  rewrite He, Hc, Ht, Hl, Hm, (events_since_app _ _ _ Htr).
  repeat split; auto.
  - now apply stop_events_repeat.
  - intros Hne. apply Hd; [exact Ha|].
    destruct ins; [now elim Hne | discriminate].
Qed.

(** The scenario of the specification: tripped with finger 1 at 100 on its
    way to 180, two more passes that carry a resume and a pose command
    leave it at 100 with every servo detached. *)
Lemma C1_tripped_is_fail_safe_witness :
  finger 1 tripped_midway = 100 /\ goal 1 tripped_midway = 180 /\
  let st' := run [pass_at 3400 (Some "resume") false;
                  pass_at 4400 (Some "pose rest") false] tripped_midway in
  emergencyStop st' = true /\ finger 1 st' = 100 /\ all_detached st'.
Proof.
  split; [vm_compute; reflexivity|]. split; [vm_compute; reflexivity|].
  assert (Hs : well_sized tripped_midway) by (repeat split; vm_compute; reflexivity).
  assert (Ht : emergencyStop tripped_midway = true) by (vm_compute; reflexivity).
  destruct (C1_tripped_is_fail_safe tripped_midway
              [pass_at 3400 (Some "resume") false;
               pass_at 4400 (Some "pose rest") false] Hs Ht)
    as (He & Hc & _ & _ & _ & _ & Hd).
  cbv zeta. split; [exact He|]. split.
  - rewrite <- finger_nth, Hc. vm_compute; reflexivity.
  - apply Hd. discriminate.
Defined.

(** ** C3: a tripped pass never reaches the command intake *)

(** C3.  When the trip flag is set at the top of a pass, the pass is exactly
    the fail-safe path, whatever its inputs: the serial line is not read, so
    no command (not even resume) is processed, and the flag is still set at
    the end of the pass.  Hence over any number of further passes the flag
    stays set and nothing is read from the serial line. *)
Theorem C3_tripped_pass_skips_commands (st : State) (inp : PassInput) :
  emergencyStop st = true ->
  loop inp st = handleEmergencyStop st /\
  existsb is_serial_read (events_since st (loop inp st)) = false /\
  emergencyStop (loop inp st) = true /\
  (forall ins, emergencyStop (run ins st) = true /\
               existsb is_serial_read (events_since st (run ins st)) = false).
Proof.
  intros H. rewrite loop_tripped by exact H.
  destruct (handleEmergencyStop_frame st) as (_ & _ & He & _).
  repeat split.
  - now rewrite (events_since_app _ _ _ (handleEmergencyStop_trace st)).
  - now rewrite He.
  - rewrite run_tripped by exact H.
    destruct (stopped_passes (List.length ins) st) as (-> & _). exact H.
  - rewrite run_tripped by exact H.
    destruct (stopped_passes (List.length ins) st) as (_ & _ & _ & _ & _ & Htr & _).
    rewrite (events_since_app _ _ _ Htr). now apply stop_events_repeat.
Qed.

(** A resume typed while tripped is not taken. *)
Lemma C3_tripped_pass_skips_commands_witness :
  emergencyStop (loop (pass_at 3400 (Some "resume") false) tripped_midway) = true
  /\ loop (pass_at 3400 (Some "resume") false) tripped_midway
     = loop (pass_at 3400 None false) tripped_midway.
Proof.
  assert (Ht : emergencyStop tripped_midway = true) by (vm_compute; reflexivity).
  destruct (C3_tripped_pass_skips_commands tripped_midway
              (pass_at 3400 (Some "resume") false) Ht) as (Hl & _ & He & _).
  destruct (C3_tripped_pass_skips_commands tripped_midway
              (pass_at 3400 None false) Ht) as (Hl' & _).
  split; [exact He|]. now rewrite Hl, Hl'.
Defined.

(** ** C6: angles stay in range *)

(** C6.  Whatever the boot inputs and whatever the sequence of loop passes
    (any clock readings, sensor readings, serial lines and button presses,
    so in particular any sequence of ticks and catalog pose commands), every
    current angle lies in [0,180] after every pass, and also after each
    single finger update inside a motion step begun there; and from a
    tripped state on, no further pass changes any current angle. *)
Theorem C6_angles_stay_in_range (b : BootInput) (ins : list PassInput) :
  let st := run ins (boot b) in
  Forall angle_ok (currentPose st) /\
  (forall n, Forall angle_ok
               (currentPose (for_loop n 0 (servo_body SERVO_SPEED)
                               (set_movementActive false st)))) /\
  (emergencyStop st = true ->
   forall more, currentPose (run more st) = currentPose st).
Proof.
  cbv zeta. pose proof (run_Inv ins (boot b) (boot_Inv b)) as HI.
  split; [apply HI|]. split.
  { intros n. apply (servo_loop_Inv SERVO_SPEED n _ eq_refl HI). }
  intros Ht more.
  destruct (tripped_run_frame (run ins (boot b)) more Ht) as (_ & Hcur). exact Hcur.
Qed.

(** The run that ends tripped with finger 1 at 100: in range, and a pose
    command in the next pass does not move anything. *)
Lemma C6_angles_stay_in_range_witness :
  Forall angle_ok (currentPose (run midway_inputs (boot demo_boot))) /\
  currentPose (run [pass_at 3400 (Some "pose rest") false]
                 (run midway_inputs (boot demo_boot)))
  = currentPose (run midway_inputs (boot demo_boot)).
Proof.
  destruct (C6_angles_stay_in_range demo_boot midway_inputs) as (Hr & _ & Hf).
  split; [exact Hr|]. apply Hf. vm_compute; reflexivity.
Defined.

(** ** C4: the FIST scenario *)

(** C4, as the specification states it, fails: with SERVO_SPEED = 5 the four
    fingers that travel 180 degrees are only half way after 18 ticks. *)
Lemma C4_fist_not_reached_after_18_ticks :
  currentPose fist_commanded = [0; 0; 0; 0; 0] /\
  targetPose fist_commanded = [90; 180; 180; 180; 180] /\
  SERVO_SPEED = 5 /\
  ~ (currentPose (iterate 18 updateServoPositions fist_commanded)
     = targetPose fist_commanded /\
     finger 0 (iterate 17 updateServoPositions fist_commanded) = 85 /\
     finger 1 (iterate 17 updateServoPositions fist_commanded) = 85).
Proof.
  repeat (split; [vm_compute; reflexivity|]).
  intros (H18 & _).
  assert (E : currentPose (iterate 18 updateServoPositions fist_commanded)
              = [90; 90; 90; 90; 90]) by (vm_compute; reflexivity).
  assert (T : targetPose fist_commanded = [90; 180; 180; 180; 180])
    by (vm_compute; reflexivity).
  rewrite E, T in H18. discriminate H18.
Qed.

(** C4 (amended).  With pose FIST = [90,180,180,180,180], all fingers
    starting at 0 and step size 5: after 17 ticks finger 0 and finger 1 are
    both at 85; after 18 ticks finger 0 has reached its target 90 and the
    other four are at 90 of 180; after 35 ticks those four are at 175; after
    36 ticks all five fingers are exactly at their targets. *)
Theorem C4_fist_scenario :
  currentPose fist_commanded = [0; 0; 0; 0; 0] /\
  targetPose fist_commanded = [90; 180; 180; 180; 180] /\
  SERVO_SPEED = 5 /\
  currentPose (iterate 17 updateServoPositions fist_commanded) = [85; 85; 85; 85; 85] /\
  currentPose (iterate 18 updateServoPositions fist_commanded) = [90; 90; 90; 90; 90] /\
  currentPose (iterate 35 updateServoPositions fist_commanded) = [90; 175; 175; 175; 175] /\
  currentPose (iterate 36 updateServoPositions fist_commanded) = targetPose fist_commanded.
Proof. repeat split; vm_compute; reflexivity. Qed.

(** ** C5: targets always end in range, and no command is turned down for
    its angles *)





(** ** C7: pose lookup ignores case and nothing else *)

Lemma toupper_tolower a : WString.toupper (WString.tolower a) = WString.toupper a.
Proof. destruct a as [[] [] [] [] [] [] [] []]; reflexivity. Qed.

Lemma tolower_toupper a : WString.tolower (WString.toupper a) = WString.tolower a.
Proof. destruct a as [[] [] [] [] [] [] [] []]; reflexivity. Qed.

Lemma toUpperCase_toLowerCase s :
  WString.toUpperCase (WString.toLowerCase s) = WString.toUpperCase s.
Proof.
  induction s as [|a s IH]; [reflexivity|].
  unfold WString.toUpperCase, WString.toLowerCase in *. simpl.
  now rewrite toupper_tolower, IH.
Qed.

Lemma same_letter_iff a b :
  same_letter a b = true <-> WString.toupper a = WString.toupper b.
Proof.
  unfold same_letter. rewrite Ascii.eqb_eq. split; intros H.
  - now rewrite <- (toupper_tolower a), <- (toupper_tolower b), H.
  - now rewrite <- (tolower_toupper a), <- (tolower_toupper b), H.
Qed.

Lemma equalsIgnoreCase_iff s1 : forall s2,
  equalsIgnoreCase s1 s2 = true
  <-> WString.toUpperCase s1 = WString.toUpperCase s2.
Proof.
  unfold WString.toUpperCase.
  induction s1 as [|a s1 IH]; intros [|b s2]; simpl;
    try (split; [discriminate | discriminate]); [tauto|].
  rewrite andb_true_iff, same_letter_iff, IH.
  split; [intros [-> ->]; reflexivity | intros [= -> ->]; auto].
Qed.

Lemma poses_upper_case : Forall (fun p => WString.toUpperCase (name p) = name p) poses.
Proof. unfold poses. repeat constructor. Qed.

(** Names are unique: looking up the name of an entry gives that entry. *)
Lemma find_pose_self p : In p poses -> find_pose poses (name p) = Some p.
Proof.
  unfold poses. simpl In. intros H.
  repeat (destruct H as [<-|H]; [reflexivity|]). contradiction.
Qed.

Lemma find_pose_none tbl n :
  (forall p, In p tbl -> name p <> n) -> find_pose tbl n = None.
Proof.
  induction tbl as [|q tbl IH]; intros H; simpl; [reflexivity|].
  destruct (String.eqb_spec (name q) n) as [Heq|Hne].
  - exfalso. apply (H q); [now left | exact Heq].
  - apply IH. intros p Hp. apply H. now right.
Qed.

Lemma lookup_ignoring_case s p :
  In p poses -> equalsIgnoreCase s (name p) = true ->
  find_pose poses (WString.toUpperCase s) = Some p.
Proof.
  intros Hin Heq. apply equalsIgnoreCase_iff in Heq.
  pose proof poses_upper_case as Hup. rewrite Forall_forall in Hup.
  rewrite Heq, (Hup p Hin). now apply find_pose_self.
Qed.

Lemma lookup_no_match s :
  (forall p, In p poses -> equalsIgnoreCase s (name p) = false) ->
  find_pose poses (WString.toUpperCase s) = None.
Proof.
  intros H. apply find_pose_none. intros p Hin Hname.
  pose proof poses_upper_case as Hup. rewrite Forall_forall in Hup.
  assert (Heq : equalsIgnoreCase s (name p) = true).
  { apply equalsIgnoreCase_iff. now rewrite (Hup p Hin). }
  rewrite (H p Hin) in Heq. discriminate.
Qed.

(** C7.  Pose lookup is exact matching up to letter case.  For every entry
    of the catalog, every name that equals the entry's name up to case sets
    the targets to that entry's angle vector (and the pose name to the
    entry's name); a name that equals no entry's name up to case is not
    found: [setPose] changes nothing and only prints the notice.  The
    lower-casing that [processCommand] applies first does not change what is
    found: a command line that reads pose followed by the name, once trimmed
    and lower-cased, does exactly what [setPose] does on the name. *)
Theorem C7_pose_lookup_ignores_case (s : string) (st : State) :
  well_sized st ->
  (forall p, In p poses -> equalsIgnoreCase s (name p) = true ->
     targetPose (setPose s st) = angles p /\
     currentPoseName (setPose s st) = name p) /\
  ((forall p, In p poses -> equalsIgnoreCase s (name p) = false) ->
     setPose s st = println "✗ Pose not found" st) /\
  setPose (WString.toLowerCase s) st = setPose s st /\
  (forall cmd,
     WString.toLowerCase (WString.trim cmd) = "pose " ++ WString.toLowerCase s ->
     processCommand cmd st = setPose s st).
Proof.
  intros Hs.
  assert (Hlow : setPose (WString.toLowerCase s) st = setPose s st)
    by (unfold setPose, setPose_in; now rewrite toUpperCase_toLowerCase).
  split; [|split; [|split; [exact Hlow|]]]; cycle 2.
  { intros cmd Hcmd. unfold processCommand. cbv zeta. rewrite Hcmd.
    change (WString.startsWith ("pose " ++ WString.toLowerCase s) "pose ")
      with true.
    change (WString.substring 5 ("pose " ++ WString.toLowerCase s))
      with (WString.toLowerCase s).
    exact Hlow. }
  all: repeat split.
  - apply setPose_found; [exact Hs | now apply lookup_ignoring_case].
  - rewrite (setPose_found_name s st p) by now apply lookup_ignoring_case.
    apply equalsIgnoreCase_iff in H0.
    pose proof poses_upper_case as Hup. rewrite Forall_forall in Hup.
    now rewrite H0, (Hup p H).
  - intros H. apply setPose_not_found. now apply lookup_no_match.
Qed.

Lemma C7_pose_lookup_ignores_case_witness :
  targetPose (setPose "Fist" (boot demo_boot)) = [90; 180; 180; 180; 180] /\
  targetPose (setPose "fist" (boot demo_boot)) = [90; 180; 180; 180; 180] /\
  targetPose (setPose "FIST" (boot demo_boot)) = [90; 180; 180; 180; 180] /\
  setPose "fis" (boot demo_boot) = println "✗ Pose not found" (boot demo_boot).
Proof.
  assert (Hs : well_sized (boot demo_boot)) by (repeat split; vm_compute; reflexivity).
  assert (Hin : In (mkPose "FIST" [90; 180; 180; 180; 180]) poses)
    by (right; left; reflexivity).
  split; [|split; [|split]].
  - apply (proj1 (C7_pose_lookup_ignores_case "Fist" _ Hs) _ Hin). reflexivity.
  - apply (proj1 (C7_pose_lookup_ignores_case "fist" _ Hs) _ Hin). reflexivity.
  - apply (proj1 (C7_pose_lookup_ignores_case "FIST" _ Hs) _ Hin). reflexivity.
  - apply (proj1 (proj2 (C7_pose_lookup_ignores_case "fis" _ Hs))).
    intros p Hp. unfold poses in Hp. simpl In in Hp.
    repeat (destruct Hp as [<-|Hp]; [reflexivity|]). contradiction.
Defined.

(** ** C8: presence-gated biosignal sampling *)

(** C8.  On every call of [readSensors], gsr and emg take the values just
    read from the two analog pins.  If the infrared intensity read is at or
    below the threshold 50000 (no finger detected), heartRate and spo2 keep
    the values they had before the call; above the threshold they take the
    values read from the sensor. *)
Theorem C8_presence_gated_sampling (inp : SensorInput) (st : State) :
  gsrValue (readSensors inp st) = adc_gsr inp /\
  emgValue (readSensors inp st) = adc_emg inp /\
  (ir_value inp <= 50000 ->
     heartRate (readSensors inp st) = heartRate st /\
     spo2 (readSensors inp st) = spo2 st) /\
  (50000 < ir_value inp ->
     heartRate (readSensors inp st) = hr_reading inp /\
     spo2 (readSensors inp st) = spo2_reading inp).
Proof.
  unfold readSensors. cbv zeta.
  destruct (Z.gtb_spec (ir_value inp) 50000) as [Hgt|Hle];
    repeat split; try reflexivity; intros; lia.
Qed.

Lemma C8_presence_gated_sampling_witness :
  let before := set_spo2 98 (set_heartRate 72 (boot demo_boot)) in
  let after := readSensors (mkSensorInput 512 300 50000 0 0) before in
  heartRate after = 72 /\ spo2 after = 98 /\ gsrValue after = 512 /\ emgValue after = 300.
Proof.
  cbv zeta.
  destruct (C8_presence_gated_sampling (mkSensorInput 512 300 50000 0 0)
              (set_spo2 98 (set_heartRate 72 (boot demo_boot))))
    as (Hg & He & Hkeep & _).
  destruct (Hkeep ltac:(simpl; lia)) as [Hh Hs].
  rewrite Hg, He, Hh, Hs. repeat split.
Defined.

(** ** C9: resume clears the flag and nothing else *)

Lemma nth_array_set_false (l : list bool) j i :
  nth i l false = false -> nth i (array_set l j false) false = false.
Proof.
  intros H. destruct (Nat.eq_dec i j) as [->|Hne].
  - destruct (Nat.lt_ge_cases j (List.length l)) as [Hj|Hj].
    + now apply nth_array_set_same.
    + now rewrite array_set_beyond.
  - now rewrite nth_array_set_other.
Qed.

Lemma handleEmergencyStop_keeps_detached st i :
  nth i (attached st) false = false ->
  nth i (attached (handleEmergencyStop st)) false = false.
Proof.
  intros H. unfold handleEmergencyStop. simpl.
  now repeat apply nth_array_set_false.
Qed.

Lemma attached_of_mech st st' : mech st' = mech st -> attached st' = attached st.
Proof. unfold mech. now intros [= _ _ ->]. Qed.

Lemma servo_task_attached inp st : attached (servo_task inp st) = attached st.
Proof.
  unfold servo_task. destruct (_ >=? _); [|reflexivity].
  rewrite (attached_of_mech _ _ (mech_set_lastServoUpdate _ _)).
  apply update_attached.
Qed.

Lemma command_task_attached inp st : attached (command_task inp st) = attached st.
Proof.
  unfold command_task. destruct (serial_line inp) as [l|]; [|reflexivity].
  now rewrite processCommand_attached.
Qed.

Lemma loop_keeps_detached inp st i :
  nth i (attached st) false = false ->
  nth i (attached (loop inp st)) false = false.
Proof.
  intros H. unfold loop. destruct (emergencyStop st); cbv zeta.
  - rewrite !(attached_of_mech _ _ (fire_mech _ _)).
    now apply handleEmergencyStop_keeps_detached.
  - rewrite (attached_of_mech _ _ (fire_mech _ _)), command_task_attached.
    rewrite (attached_of_mech _ _ (fire_mech _ _)).
    rewrite (attached_of_mech _ _ (cloud_task_mech _ _)).
    rewrite (attached_of_mech _ _ (sensor_task_mech _ _)).
    now rewrite servo_task_attached.
Qed.

Lemma run_keeps_detached ins : forall st i,
  nth i (attached st) false = false ->
  nth i (attached (run ins st)) false = false.
Proof.
  induction ins as [|inp ins IH]; intros st i H; [exact H|].
  change (run (inp :: ins) st) with (run ins (loop inp st)).
  apply IH. now apply loop_keeps_detached.
Qed.

(** C9.  A serial line that reads resume once trimmed and lower-cased has
    one effect on the state: the trip flag is cleared (and the line System
    resumed is printed).  Angles, targets, pose name, sensor values, time
    stamps and servo bindings are as before; in particular no servo is
    attached again.  More generally no command changes a servo binding, and
    no sequence of loop passes ever turns a detached servo into an attached
    one: only [initServos], which [setup] alone calls, attaches. *)
Theorem C9_resume_only_clears_flag (cmd : string) (st : State) :
  WString.toLowerCase (WString.trim cmd) = "resume" ->
  processCommand cmd st = println "System resumed" (set_emergencyStop false st) /\
  emergencyStop (processCommand cmd st) = false /\
  currentPose (processCommand cmd st) = currentPose st /\
  targetPose (processCommand cmd st) = targetPose st /\
  currentPoseName (processCommand cmd st) = currentPoseName st /\
  (gsrValue (processCommand cmd st), emgValue (processCommand cmd st),
   heartRate (processCommand cmd st), spo2 (processCommand cmd st))
  = (gsrValue st, emgValue st, heartRate st, spo2 st) /\
  attached (processCommand cmd st) = attached st /\
  (forall c s, attached (processCommand c s) = attached s) /\
  (forall ins s i, nth i (attached s) false = false ->
                   nth i (attached (run ins s)) false = false).
Proof.
  intros H.
  assert (Hp : processCommand cmd st
               = println "System resumed" (set_emergencyStop false st)).
  { unfold processCommand. cbv zeta. rewrite H. reflexivity. }
  rewrite Hp. repeat split.
  - apply processCommand_attached.
  - intros ins s i. apply run_keeps_detached.
Qed.

(** The stop button, then a resume typed with stray case and spaces: the
    flag is cleared, the finger stays where it stopped, and the servos the
    trip detached remain detached over the following motion ticks. *)
Lemma C9_resume_only_clears_flag_witness :
  let stopped := handleEmergencyStop tripped_midway in
  let resumed := processCommand "  Resume " stopped in
  emergencyStop resumed = false /\ finger 1 resumed = 100 /\
  attached resumed = [false; false; false; false; false] /\
  nth 1 (attached (run [pass_at 4420 None false; pass_at 4440 None false] resumed))
      false = false.
Proof.
  cbv zeta.
  destruct (C9_resume_only_clears_flag "  Resume "
              (handleEmergencyStop tripped_midway) eq_refl)
    as (_ & He & Hc & _ & _ & _ & Ha & _ & Hrun).
  split; [exact He|]. split; [|split].
  - rewrite <- finger_nth, Hc. vm_compute; reflexivity.
  - rewrite Ha. vm_compute; reflexivity.
  - apply Hrun. rewrite Ha. vm_compute; reflexivity.
Defined.

(** ** C10: the telemetry payload *)

Lemma string_app_assoc (a b c : string) : ((a ++ b) ++ c = a ++ (b ++ c))%string.
Proof. induction a as [|x a IH]; simpl; [reflexivity | now rewrite IH]. Qed.

(** C10.  The payload [createDataPayload] builds is the object of exactly
    nine members, in this order: session_id (the session identifier, a
    string), timestamp (milliseconds since boot), pose (the current pose
    name, a string), servo_positions (the five current angles, thumb to
    pinky), gsr, emg, heart_rate, spo2 and session_duration (whole seconds
    since the session began).  None is left out and none changes place. *)
Theorem C10_telemetry_nine_fields (ms_stamp ms_dur : Z) (st : State) :
  createDataPayload ms_stamp ms_dur st
  = json_object (telemetry_record ms_stamp ms_dur st) /\
  map fst (telemetry_record ms_stamp ms_dur st)
  = [ "session_id"; "timestamp"; "pose"; "servo_positions"; "gsr"; "emg";
      "heart_rate"; "spo2"; "session_duration" ] /\
  createDataPayload 13300 13300 open_reached
  = json_object
      [ ("session_id", json_quoted "1234_42");
        ("timestamp", "13300");
        ("pose", json_quoted "OPEN");
        ("servo_positions", "[45,0,0,0,0]");
        ("gsr", "512.00");
        ("emg", "300.00");
        ("heart_rate", "72");
        ("spo2", "98");
        ("session_duration", "12") ].
Proof.
  split; [|split; [reflexivity | vm_compute; reflexivity]].
  unfold createDataPayload, json_object, telemetry_record, json_members,
    json_member, json_array, json_numbers, json_quoted, finger.
  cbv zeta. cbn [fst snd].
  repeat rewrite string_app_assoc. reflexivity.
Qed.

(* ================================================================== *)
(** * Further properties of the sketch *)

(** ** Command lines are read up to case and surrounding white space *)

Lemma isspace_toupper c : WString.isspace (WString.toupper c) = WString.isspace c.
Proof. destruct c as [[] [] [] [] [] [] [] []]; reflexivity. Qed.

Lemma isspace_tolower c : WString.isspace (WString.tolower c) = WString.isspace c.
Proof. destruct c as [[] [] [] [] [] [] [] []]; reflexivity. Qed.

Lemma tolower_tolower c : WString.tolower (WString.tolower c) = WString.tolower c.
Proof. destruct c as [[] [] [] [] [] [] [] []]; reflexivity. Qed.

Lemma map_chars_map_chars f g s :
  WString.map_chars f (WString.map_chars g s)
  = WString.map_chars (fun c => f (g c)) s.
Proof. induction s as [|c s IH]; simpl; [reflexivity | now rewrite IH]. Qed.

Lemma map_chars_ext f g s :
  (forall c, f c = g c) -> WString.map_chars f s = WString.map_chars g s.
Proof.
  intros H. induction s as [|c s IH]; simpl; [reflexivity | now rewrite H, IH].
Qed.

Lemma toLowerCase_toLowerCase s :
  WString.toLowerCase (WString.toLowerCase s) = WString.toLowerCase s.
Proof.
  unfold WString.toLowerCase. rewrite map_chars_map_chars.
  apply map_chars_ext, tolower_tolower.
Qed.

Lemma toLowerCase_toUpperCase s :
  WString.toLowerCase (WString.toUpperCase s) = WString.toLowerCase s.
Proof.
  unfold WString.toLowerCase, WString.toUpperCase. rewrite map_chars_map_chars.
  apply map_chars_ext, tolower_toupper.
Qed.

Section TrimAndCase.

Variable f : ascii -> ascii.
Hypothesis f_space : forall c, WString.isspace (f c) = WString.isspace c.

Lemma trim_left_map_chars s :
  WString.trim_left (WString.map_chars f s) = WString.map_chars f (WString.trim_left s).
Proof.
  induction s as [|c s IH]; simpl; [reflexivity|].
  rewrite f_space. destruct (WString.isspace c); [exact IH | reflexivity].
Qed.

Lemma trim_right_map_chars s :
  WString.trim_right (WString.map_chars f s) = WString.map_chars f (WString.trim_right s).
Proof.
  induction s as [|c s IH]; simpl; [reflexivity|].
  rewrite IH, f_space.
  destruct (WString.trim_right s); simpl; [|reflexivity].
  destruct (WString.isspace c); reflexivity.
Qed.

Lemma trim_map_chars s :
  WString.trim (WString.map_chars f s) = WString.map_chars f (WString.trim s).
Proof.
  unfold WString.trim. now rewrite trim_left_map_chars, trim_right_map_chars.
Qed.

End TrimAndCase.

Lemma trim_right_idempotent s :
  WString.trim_right (WString.trim_right s) = WString.trim_right s.
Proof.
  induction s as [|c s IH]; simpl; [reflexivity|].
  destruct (WString.trim_right s) as [|d r] eqn:E.
  - destruct (WString.isspace c) eqn:Ec; simpl; [reflexivity|].
    now rewrite Ec.
  - simpl. simpl in IH. rewrite IH. reflexivity.
Qed.

(** Trimming on the right keeps a first character that is not white space. *)
Lemma trim_right_head c r :
  WString.isspace c = false ->
  exists r', WString.trim_right (String c r) = String c r'.
Proof.
  intros Hc. simpl. destruct (WString.trim_right r).
  - rewrite Hc. now exists EmptyString.
  - eexists; reflexivity.
Qed.

Lemma trim_left_head s :
  WString.trim_left s = EmptyString \/
  exists c r, WString.trim_left s = String c r /\ WString.isspace c = false.
Proof.
  induction s as [|c s IH]; simpl; [now left|].
  destruct (WString.isspace c) eqn:Ec; [exact IH|].
  right. now exists c, s.
Qed.

Lemma trim_idempotent s : WString.trim (WString.trim s) = WString.trim s.
Proof.
  unfold WString.trim.
  destruct (trim_left_head s) as [->|(c & r & -> & Hc)]; [reflexivity|].
  destruct (trim_right_head c r Hc) as [r' Hr]. rewrite Hr.
  simpl WString.trim_left. rewrite Hc. rewrite <- Hr.
  apply trim_right_idempotent.
Qed.

Lemma trim_left_blank_prefix pre s :
  WString.trim_left pre = EmptyString ->
  WString.trim_left (pre ++ s) = WString.trim_left s.
Proof.
  induction pre as [|c r IH]; simpl; [reflexivity|].
  destruct (WString.isspace c); [exact IH | discriminate].
Qed.

Lemma trim_right_blank_suffix s post :
  WString.trim_right post = EmptyString ->
  WString.trim_right (s ++ post) = WString.trim_right s.
Proof.
  intros H. induction s as [|c s IH]; simpl; [exact H | now rewrite IH].
Qed.

Lemma trim_left_blank_right s :
  WString.trim_left s = EmptyString -> WString.trim_right s = EmptyString.
Proof.
  induction s as [|c r IH]; simpl; [reflexivity|].
  destruct (WString.isspace c); [|discriminate].
  intros H. now rewrite (IH H).
Qed.

Lemma trim_blank_left s :
  WString.trim s = EmptyString -> WString.trim_left s = EmptyString.
Proof.
  unfold WString.trim.
  destruct (trim_left_head s) as [->|(c & r & -> & Hc)]; [reflexivity|].
  destruct (trim_right_head c r Hc) as [r' ->]. discriminate.
Qed.

Lemma trim_left_append s t c r :
  WString.trim_left s = String c r ->
  WString.trim_left (s ++ t) = (WString.trim_left s ++ t)%string.
Proof.
  induction s as [|d s IH]; simpl; [discriminate|].
  destruct (WString.isspace d); [exact IH | reflexivity].
Qed.

Lemma trim_padded pre cmd post :
  WString.trim pre = EmptyString -> WString.trim post = EmptyString ->
  WString.trim (pre ++ cmd ++ post) = WString.trim cmd.
Proof.
  intros Hpre Hpost. apply trim_blank_left in Hpre, Hpost.
  unfold WString.trim. rewrite (trim_left_blank_prefix _ _ Hpre).
  destruct (WString.trim_left cmd) as [|c r] eqn:E.
  - rewrite (trim_left_blank_prefix _ _ E), Hpost. reflexivity.
  - rewrite (trim_left_append _ _ _ _ E), E.
    apply trim_right_blank_suffix. now apply trim_left_blank_right.
Qed.

Lemma normalized_trim cmd : normalized (WString.trim cmd) = normalized cmd.
Proof. unfold normalized. now rewrite trim_idempotent. Qed.

Lemma normalized_toUpperCase cmd : normalized (WString.toUpperCase cmd) = normalized cmd.
Proof.
  unfold normalized, WString.toUpperCase.
  rewrite (trim_map_chars _ isspace_toupper).
  apply toLowerCase_toUpperCase.
Qed.

Lemma normalized_toLowerCase cmd : normalized (WString.toLowerCase cmd) = normalized cmd.
Proof.
  unfold normalized, WString.toLowerCase at 2.
  rewrite (trim_map_chars _ isspace_tolower).
  apply toLowerCase_toLowerCase.
Qed.

Lemma normalized_normalized cmd : normalized (normalized cmd) = normalized cmd.
Proof.
  unfold normalized at 2. now rewrite normalized_toLowerCase, normalized_trim.
Qed.

Lemma processCommand_normalized cmd st :
  processCommand cmd st = processCommand (normalized cmd) st.
Proof.
  unfold processCommand. cbv zeta.
  change (WString.toLowerCase (WString.trim (normalized cmd)))
    with (normalized (normalized cmd)).
  change (WString.toLowerCase (WString.trim cmd)) with (normalized cmd).
  now rewrite normalized_normalized.
Qed.

(** X1.  A command line is read up to letter case and up to white space
    around it: upper-casing it, lower-casing it, trimming it, or padding it
    with spaces, tabs or line ends on either side gives the same command,
    with the same effect on every state. *)
Theorem X1_command_case_and_padding (cmd pre post : string) (st : State) :
  WString.trim pre = EmptyString -> WString.trim post = EmptyString ->
  processCommand (WString.toUpperCase cmd) st = processCommand cmd st /\
  processCommand (WString.toLowerCase cmd) st = processCommand cmd st /\
  processCommand (WString.trim cmd) st = processCommand cmd st /\
  processCommand (pre ++ cmd ++ post) st = processCommand cmd st.
Proof.
  intros Hpre Hpost.
  rewrite (processCommand_normalized (WString.toUpperCase cmd)),
    (processCommand_normalized (WString.toLowerCase cmd)),
    (processCommand_normalized (WString.trim cmd)),
    (processCommand_normalized (pre ++ cmd ++ post)),
    (processCommand_normalized cmd).
  rewrite normalized_toUpperCase, normalized_toLowerCase, normalized_trim.
  repeat split. f_equal. unfold normalized. f_equal.
  now apply trim_padded.
Qed.

Lemma X1_command_case_and_padding_witness :
  processCommand ("  " ++ "Pose Fist" ++ CRLF) (boot demo_boot)
  = processCommand "Pose Fist" (boot demo_boot)
  /\ processCommand (WString.toUpperCase "Pose Fist") (boot demo_boot)
     = processCommand "Pose Fist" (boot demo_boot).
Proof.
  destruct (X1_command_case_and_padding "Pose Fist" "  " CRLF (boot demo_boot)
              eq_refl eq_refl) as (Hup & _ & _ & Hpad).
  split; [exact Hpad | exact Hup].
Defined.

(** ** What each part of a pass leaves alone *)

(** Looks through a setter [g] applied on top of an operation. *)
Ltac skip g :=
  match goal with
  | |- context [?f (g ?v ?X)] =>
      let H := fresh in
      assert (H : forall s, f (g v s) = f s) by (intro; reflexivity);
      rewrite (H X); clear H
  end.

Lemma servo_body_beside speed i st :
  beside_motion (servo_body speed i st) = beside_motion st.
Proof. unfold servo_body. destruct (_ =? _); reflexivity. Qed.

Lemma update_beside speed st :
  beside_motion (updateServoPositions_at speed st) = beside_motion st.
Proof.
  unfold updateServoPositions_at.
  apply (for_loop_inv (fun s => beside_motion s = beside_motion st)).
  - intros i s Hs. now rewrite servo_body_beside.
  - reflexivity.
Qed.

Lemma servo_task_beside inp st :
  beside_motion (servo_task inp st) = beside_motion st.
Proof.
  unfold servo_task. destruct (_ >=? _); [|reflexivity].
  skip set_lastServoUpdate. apply update_beside.
Qed.

Lemma readSensors_beside inp st :
  beside_sensing (readSensors inp st) = beside_sensing st.
Proof. unfold readSensors. destruct (_ >? _); reflexivity. Qed.

Lemma sensor_task_beside inp st :
  beside_sensing (sensor_task inp st) = beside_sensing st.
Proof.
  unfold sensor_task. destruct (_ >=? _); [|reflexivity].
  skip set_lastSensorRead. apply readSensors_beside.
Qed.

Lemma uploadToCloud_beside inp st :
  beside_upload (uploadToCloud inp st) = beside_upload st /\
  lastCloudUpload (uploadToCloud inp st) = lastCloudUpload st.
Proof.
  unfold uploadToCloud. destruct (negb _); [split; reflexivity|].
  destruct (connect_ok inp); split; reflexivity.
Qed.

Lemma cloud_task_beside inp st :
  beside_upload (cloud_task inp st) = beside_upload st.
Proof.
  unfold cloud_task. destruct (_ >=? _); [|reflexivity].
  skip set_lastCloudUpload. exact (proj1 (uploadToCloud_beside _ st)).
Qed.

Lemma setTargets_beside a st :
  beside_command (setTargets a st) = beside_command st /\
  emergencyStop (setTargets a st) = emergencyStop st /\
  currentPoseName (setTargets a st) = currentPoseName st /\
  trace (setTargets a st) = trace st.
Proof. unfold setTargets. simpl. auto. Qed.

Lemma setPose_beside n st :
  beside_command (setPose n st) = beside_command st /\
  emergencyStop (setPose n st) = emergencyStop st.
Proof.
  unfold setPose, setPose_in. destruct (find_pose _ _); [|split; reflexivity].
  cbv zeta.
  destruct (setTargets_beside (angles p)
              (set_currentPoseName (WString.toUpperCase n)
                 (println (WString.toUpperCase n) (print "Executing pose: " st))))
    as (-> & -> & _). split; reflexivity.
Qed.

Lemma processCommand_beside cmd st :
  beside_command (processCommand cmd st) = beside_command st.
Proof. command_cases; try reflexivity. exact (proj1 (setPose_beside _ st)). Qed.

Lemma command_task_beside inp st :
  beside_command (command_task inp st) = beside_command st.
Proof.
  unfold command_task. destruct (serial_line inp) as [l|]; [|reflexivity].
  rewrite processCommand_beside. reflexivity.
Qed.

Lemma handleEmergencyStop_beside st :
  beside_stop (handleEmergencyStop st) = beside_stop st.
Proof. reflexivity. Qed.

Lemma fire_beside irq st : beside_flag (fire irq st) = beside_flag st.
Proof. destruct irq; reflexivity. Qed.

Lemma fire_flag irq st : emergencyStop (fire irq st) = irq || emergencyStop st.
Proof. destruct irq; reflexivity. Qed.

(** Splits an equation between two gathered frames into its components. *)
Ltac frame_of lem :=
  let H := fresh in
  pose proof lem as H;
  unfold beside_motion, beside_sensing, beside_upload, beside_command,
    beside_stop, beside_flag in H;
  injection H; intros; clear H.

Lemma loop_untripped inp st :
  emergencyStop st = false ->
  loop inp st
  = fire (irq_late inp)
      (command_task inp
         (fire (irq_early inp)
            (cloud_task inp (sensor_task inp (servo_task inp st))))).
Proof. intros H. unfold loop. rewrite H. reflexivity. Qed.

(** ** The time gates and the clock rolling over *)

Lemma elapsed_mod (last d : Z) :
  0 <= d < 2 ^ 32 -> wrap_ulong (wrap_ulong (last + d) - last) = d.
Proof.
  intros Hd. unfold wrap_ulong.
  rewrite Zminus_mod_idemp_l.
  replace (last + d - last) with d by lia.
  apply Z.mod_small. exact Hd.
Qed.

(** X2.  The three time gates of the loop compare the elapsed time in
    unsigned 32-bit arithmetic, so they keep working when [millis()] rolls
    over: if the clock reads [d] milliseconds (less than 2^32) after the
    stored time stamp, modulo 2^32, the task runs exactly when [d] reaches
    its interval (20 ms for the servos, 10 ms for the sensors, 5000 ms for
    the upload), and then stores the new time stamp; otherwise the task
    leaves the state as it is. *)
Theorem X2_gates_survive_clock_rollover (inp : PassInput) (st : State) (d : Z) :
  0 <= d < 2 ^ 32 ->
  (ms_servo_gate inp = wrap_ulong (lastServoUpdate st + d) ->
     (d < 20 -> servo_task inp st = st) /\
     (20 <= d -> servo_task inp st
                 = set_lastServoUpdate (ms_servo_stamp inp) (updateServoPositions st))) /\
  (ms_sensor_gate inp = wrap_ulong (lastSensorRead st + d) ->
     (d < 10 -> sensor_task inp st = st) /\
     (10 <= d -> sensor_task inp st
                 = set_lastSensorRead (ms_sensor_stamp inp)
                     (readSensors (sensors inp) st))) /\
  (ms_cloud_gate inp = wrap_ulong (lastCloudUpload st + d) ->
     (d < 5000 -> cloud_task inp st = st) /\
     (5000 <= d -> cloud_task inp st
                   = set_lastCloudUpload (ms_cloud_stamp inp)
                       (uploadToCloud (net inp) st))).
Proof.
  intros Hd. unfold servo_task, sensor_task, cloud_task, SERVO_UPDATE_MS.
  split; [|split]; intros Hgate; rewrite Hgate, (elapsed_mod _ _ Hd);
    (split; intros Hcmp;
     match goal with
     | |- context [?a >=? ?b] => destruct (Z.geb_spec a b)
     end; first [reflexivity | lia]).
Qed.

(** The clock rolled over since the last motion step: stamp at 2^32 - 5,
    reading 15 now, 20 ms in between. *)
Lemma X2_gates_survive_clock_rollover_witness :
  let st := set_lastServoUpdate (2 ^ 32 - 5) fist_commanded in
  let inp := pass_at 15 None false in
  servo_task inp st = set_lastServoUpdate 15 (updateServoPositions st).
Proof.
  cbv zeta.
  destruct (X2_gates_survive_clock_rollover (pass_at 15 None false)
              (set_lastServoUpdate (2 ^ 32 - 5) fist_commanded) 20
              ltac:(lia)) as (Hservo & _).
  destruct (Hservo eq_refl) as (_ & Hrun).
  apply Hrun. lia.
Defined.

(** ** The trip flag after an untripped pass *)

Lemma tasks_flag inp st :
  emergencyStop (cloud_task inp (sensor_task inp (servo_task inp st)))
  = emergencyStop st.
Proof.
  frame_of (cloud_task_beside inp (sensor_task inp (servo_task inp st))).
  frame_of (sensor_task_beside inp (servo_task inp st)).
  frame_of (servo_task_beside inp st).
  congruence.
Qed.

Lemma processCommand_flag cmd st :
  emergencyStop (processCommand cmd st)
  = if String.eqb (normalized cmd) "stop" then true
    else if String.eqb (normalized cmd) "resume" then false
    else emergencyStop st.
Proof.
  unfold processCommand. cbv zeta.
  change (WString.toLowerCase (WString.trim cmd)) with (normalized cmd).
  destruct (WString.startsWith (normalized cmd) "pose ") eqn:Hp.
  - destruct (String.eqb_spec (normalized cmd) "stop") as [E|_];
      [rewrite E in Hp; discriminate|].
    destruct (String.eqb_spec (normalized cmd) "resume") as [E|_];
      [rewrite E in Hp; discriminate|].
    exact (proj2 (setPose_beside _ st)).
  - destruct (String.eqb_spec (normalized cmd) "list") as [->|_]; [reflexivity|].
    destruct (String.eqb_spec (normalized cmd) "stop") as [_|_]; [reflexivity|].
    destruct (String.eqb_spec (normalized cmd) "data") as [->|_]; [reflexivity|].
    destruct (String.eqb_spec (normalized cmd) "resume") as [_|_]; reflexivity.
Qed.

(** X3.  How a pass that begins untripped leaves the trip flag.  A stop
    command sets it.  A resume command clears it, so a button press that
    came earlier in the same pass is forgotten: only a press after the
    command leaves the flag set.  In every other pass (no serial input, or
    any other command) the flag is set exactly when the button was pressed
    during the pass. *)
Theorem X3_trip_flag_after_a_pass (inp : PassInput) (st : State) :
  emergencyStop st = false ->
  (forall l, serial_line inp = Some l -> normalized l = "stop" ->
     emergencyStop (loop inp st) = true) /\
  (forall l, serial_line inp = Some l -> normalized l = "resume" ->
     emergencyStop (loop inp st) = irq_late inp) /\
  ((forall l, serial_line inp = Some l ->
      normalized l <> "stop" /\ normalized l <> "resume") ->
     emergencyStop (loop inp st) = irq_early inp || irq_late inp).
Proof.
  intros H. rewrite (loop_untripped inp st H), fire_flag.
  unfold command_task.
  repeat split.
  - intros l -> Hl. rewrite processCommand_flag, Hl. simpl. apply orb_true_r.
  - intros l -> Hl. rewrite processCommand_flag, Hl. simpl. apply orb_false_r.
  - intros Hother. destruct (serial_line inp) as [l|].
    + destruct (Hother l eq_refl) as [Hs Hr].
      rewrite processCommand_flag.
      destruct (String.eqb_spec (normalized l) "stop"); [contradiction|].
      destruct (String.eqb_spec (normalized l) "resume"); [contradiction|].
      skip emit. rewrite fire_flag, tasks_flag, H.
      rewrite orb_false_r. apply orb_comm.
    + rewrite fire_flag, tasks_flag, H. rewrite orb_false_r. apply orb_comm.
Qed.

(** The button is pressed early in a pass that then reads a resume: the
    press is lost.  Pressed after the command, it is kept. *)
Lemma X3_trip_flag_after_a_pass_witness :
  let early := mkPassInput 2020 2020 2020 2020 2020 2020 quiet_sensors offline
                 (Some "resume") true false in
  let late := mkPassInput 2020 2020 2020 2020 2020 2020 quiet_sensors offline
                (Some "resume") false true in
  emergencyStop (loop early fist_commanded) = false /\
  emergencyStop (loop late fist_commanded) = true.
Proof.
  cbv zeta.
  assert (H : emergencyStop fist_commanded = false) by (vm_compute; reflexivity).
  split.
  - exact (proj1 (proj2 (X3_trip_flag_after_a_pass
             (mkPassInput 2020 2020 2020 2020 2020 2020 quiet_sensors offline
                (Some "resume") true false) fist_commanded H))
             "resume" eq_refl eq_refl).
  - exact (proj1 (proj2 (X3_trip_flag_after_a_pass
             (mkPassInput 2020 2020 2020 2020 2020 2020 quiet_sensors offline
                (Some "resume") false true) fist_commanded H))
             "resume" eq_refl eq_refl).
Defined.

(** ** One pass, one bounded step *)

Lemma finger_overflow i st :
  (List.length (currentPose st) <= i)%nat -> finger i st = 0.
Proof. intros H. unfold finger. now apply nth_overflow. Qed.

Lemma update_step_bound speed st i :
  0 < speed -> Inv st ->
  Z.abs (finger i (updateServoPositions_at speed st) - finger i st) <= speed /\
  Z.abs (goal i st - finger i (updateServoPositions_at speed st))
  <= Z.abs (goal i st - finger i st).
Proof.
  intros Hs [(Hlen & _ & _) [Hc Ht]].
  destruct (Nat.lt_ge_cases i NUM_FINGERS) as [Hi|Hi].
  - rewrite update_finger by (rewrite ?Hlen; exact Hi).
    pose proof (nth_angle_ok _ i Hc) as Hci. pose proof (nth_angle_ok _ i Ht) as Hti.
    rewrite finger_nth in Hci. rewrite goal_nth in Hti.
    rewrite next_angle_closed by assumption.
    unfold angle_ok in *. destruct (Z.leb_spec (finger i st) (goal i st)); lia.
  - rewrite !finger_overflow by (rewrite ?update_length, Hlen; exact Hi). lia.
Qed.

Lemma loop_current inp st :
  currentPose (loop inp st)
  = if emergencyStop st then currentPose st else currentPose (servo_task inp st).
Proof.
  destruct (emergencyStop st) eqn:H.
  - rewrite loop_tripped by exact H. exact (proj1 (handleEmergencyStop_frame st)).
  - rewrite loop_untripped by exact H.
    frame_of (fire_beside (irq_late inp)
                (command_task inp (fire (irq_early inp)
                   (cloud_task inp (sensor_task inp (servo_task inp st)))))).
    frame_of (command_task_beside inp (fire (irq_early inp)
                (cloud_task inp (sensor_task inp (servo_task inp st))))).
    frame_of (fire_beside (irq_early inp)
                (cloud_task inp (sensor_task inp (servo_task inp st)))).
    frame_of (cloud_task_beside inp (sensor_task inp (servo_task inp st))).
    frame_of (sensor_task_beside inp (servo_task inp st)).
    congruence.
Qed.

Lemma servo_task_current inp st :
  currentPose (servo_task inp st) = currentPose st \/
  currentPose (servo_task inp st) = currentPose (updateServoPositions st).
Proof.
  unfold servo_task. destruct (_ >=? _); [right|left; reflexivity].
  skip set_lastServoUpdate. reflexivity.
Qed.

(** X4.  However late a pass runs, and whatever it reads, it moves each
    finger by at most SERVO_SPEED degrees and never away from the target the
    finger had when the pass began: the motion step runs at most once per
    pass and a missed interval is not made up for. *)
Theorem X4_one_bounded_step_per_pass (inp : PassInput) (st : State) (i : nat) :
  Inv st ->
  Z.abs (finger i (loop inp st) - finger i st) <= SERVO_SPEED /\
  Z.abs (goal i st - finger i (loop inp st)) <= Z.abs (goal i st - finger i st).
Proof.
  intros HI. unfold finger at 1 3. rewrite loop_current.
  assert (Hsame : Z.abs (finger i st - finger i st) <= SERVO_SPEED /\
                  Z.abs (goal i st - finger i st) <= Z.abs (goal i st - finger i st))
    by (unfold SERVO_SPEED; lia).
  destruct (emergencyStop st); [exact Hsame|].
  destruct (servo_task_current inp st) as [-> | ->]; [exact Hsame|].
  rewrite !finger_nth. apply update_step_bound; [reflexivity | exact HI].
Qed.

(** A pass that comes a full second after the previous motion step still
    moves finger 1 by five degrees only. *)
Lemma X4_one_bounded_step_per_pass_witness :
  Z.abs (finger 1 (loop (pass_at 1000 None false) fist_commanded)
         - finger 1 fist_commanded) <= 5.
Proof.
  assert (HI : Inv fist_commanded).
  { apply processCommand_Inv, boot_Inv. }
  exact (proj1 (X4_one_bounded_step_per_pass (pass_at 1000 None false)
                  fist_commanded 1 HI)).
Defined.

(** ** The moving flag *)

Lemma existsb_ext_in {A} (f g : A -> bool) l :
  (forall x, In x l -> f x = g x) -> existsb f l = existsb g l.
Proof.
  induction l as [|a l IH]; intros H; simpl; [reflexivity|].
  rewrite (H a) by now left. rewrite IH; [reflexivity|].
  intros x Hx. apply H. now right.
Qed.

Lemma servo_body_moving speed i st :
  movementActive (servo_body speed i st)
  = movementActive st || negb (finger i st =? goal i st).
Proof.
  unfold servo_body, finger, goal. destruct (_ =? _); simpl.
  - now rewrite orb_false_r.
  - now rewrite orb_true_r.
Qed.

Lemma servo_body_goal speed i k st : goal k (servo_body speed i st) = goal k st.
Proof. unfold goal. now rewrite servo_body_target. Qed.

Lemma servo_loop_moving speed n : forall from st,
  movementActive (for_loop n from (servo_body speed) st)
  = movementActive st
    || existsb (fun k => negb (finger k st =? goal k st)) (seq from n).
Proof.
  induction n as [|n IH]; intros from st; simpl; [now rewrite orb_false_r|].
  rewrite IH, servo_body_moving, <- orb_assoc. do 2 f_equal.
  apply existsb_ext_in. intros k Hk. apply in_seq in Hk.
  rewrite servo_body_goal, servo_body_other by lia. reflexivity.
Qed.

Lemma servo_body_rest speed i st :
  finger i st = goal i st -> servo_body speed i st = st.
Proof.
  unfold finger, goal, servo_body. intros ->. now rewrite Z.eqb_refl.
Qed.

Lemma servo_loop_rest speed n : forall from st,
  (forall k, (from <= k < from + n)%nat -> finger k st = goal k st) ->
  for_loop n from (servo_body speed) st = st.
Proof.
  induction n as [|n IH]; intros from st H; simpl; [reflexivity|].
  rewrite servo_body_rest by (apply H; lia).
  apply IH. intros k Hk. apply H. lia.
Qed.

(** X5.  After a motion step the moving flag tells whether some finger was
    off its target when the step began.  If every finger was on target, the
    step writes no servo and changes nothing in the state but that flag,
    which it clears. *)
Theorem X5_moving_flag (speed : Z) (st : State) :
  (movementActive (updateServoPositions_at speed st) = true <->
   exists k, (k < NUM_FINGERS)%nat /\ finger k st <> goal k st) /\
  ((forall k, (k < NUM_FINGERS)%nat -> finger k st = goal k st) ->
   updateServoPositions_at speed st = set_movementActive false st).
Proof.
  unfold updateServoPositions_at. split.
  - rewrite servo_loop_moving. simpl movementActive. rewrite orb_false_l.
    rewrite existsb_exists. split.
    + intros (k & Hin & Hk). apply in_seq in Hin. exists k. split; [lia|].
      change (finger k (set_movementActive false st)) with (finger k st) in Hk.
      change (goal k (set_movementActive false st)) with (goal k st) in Hk.
      apply negb_true_iff, Z.eqb_neq in Hk. exact Hk.
    + intros (k & Hlt & Hk). exists k. split; [apply in_seq; lia|].
      change (finger k (set_movementActive false st)) with (finger k st).
      change (goal k (set_movementActive false st)) with (goal k st).
      now apply negb_true_iff, Z.eqb_neq.
  - intros H. apply servo_loop_rest. intros k Hk.
    change (finger k st = goal k st). apply H. lia.
Qed.

(** ** Reaching a pose through the loop *)

Lemma approach_succ (s c t n : Z) :
  0 < s -> angle_ok c -> angle_ok t -> 0 <= n ->
  (if next_angle s c t <=? t
   then Z.min t (next_angle s c t + n * s)
   else Z.max t (next_angle s c t - n * s))
  = if c <=? t then Z.min t (c + (n + 1) * s) else Z.max t (c - (n + 1) * s).
Proof.
  intros Hs Hc Ht Hn. rewrite next_angle_closed by assumption.
  assert (0 <= n * s) by nia.
  replace ((n + 1) * s) with (n * s + s) by ring.
  unfold angle_ok in *.
  destruct (Z.leb_spec c t);
    match goal with
    | |- context [?a <=? ?b] => destruct (Z.leb_spec a b)
    end; lia.
Qed.

Lemma fire_false st : fire false st = st.
Proof. reflexivity. Qed.

Lemma idle_tick inp st :
  emergencyStop st = false -> idle inp ->
  (wrap_ulong (ms_servo_gate inp - lastServoUpdate st) >=? SERVO_UPDATE_MS) = true ->
  currentPose (loop inp st) = currentPose (updateServoPositions st) /\
  targetPose (loop inp st) = targetPose st /\
  emergencyStop (loop inp st) = false /\
  lastServoUpdate (loop inp st) = ms_servo_stamp inp.
Proof.
  intros Hstop (Hline & Hearly & Hlate) Hgate.
  assert (Hservo : servo_task inp st
                   = set_lastServoUpdate (ms_servo_stamp inp) (updateServoPositions st))
    by (unfold servo_task; now rewrite Hgate).
  rewrite loop_untripped by exact Hstop.
  unfold command_task. rewrite Hline, Hearly, Hlate, !fire_false.
  frame_of (cloud_task_beside inp (sensor_task inp (servo_task inp st))).
  frame_of (sensor_task_beside inp (servo_task inp st)).
  frame_of (servo_task_beside inp st).
  repeat split; try congruence.
  - transitivity (currentPose (servo_task inp st)); [congruence|].
    rewrite Hservo. skip set_lastServoUpdate. reflexivity.
  - transitivity (lastServoUpdate (servo_task inp st)); [congruence|].
    rewrite Hservo. generalize (updateServoPositions st). reflexivity.
Qed.

Lemma run_idle_ticks ins : forall st,
  Inv st -> emergencyStop st = false -> Forall idle ins ->
  servo_ticks (lastServoUpdate st) ins = true ->
  targetPose (run ins st) = targetPose st /\
  forall k, (k < NUM_FINGERS)%nat ->
    finger k (run ins st)
    = if finger k st <=? goal k st
      then Z.min (goal k st) (finger k st + Z.of_nat (List.length ins) * SERVO_SPEED)
      else Z.max (goal k st) (finger k st - Z.of_nat (List.length ins) * SERVO_SPEED).
Proof.
  induction ins as [|inp ins IH]; intros st HI Hstop Hidle Hticks.
  - split; [reflexivity|]. intros k Hk.
    change (run [] st) with st. change (Z.of_nat (List.length (@nil PassInput))) with 0.
    destruct HI as [_ [Hc Ht]].
    pose proof (nth_angle_ok _ k Hc) as Hck. pose proof (nth_angle_ok _ k Ht) as Htk.
    rewrite finger_nth in Hck. rewrite goal_nth in Htk. unfold angle_ok in *.
    destruct (Z.leb_spec (finger k st) (goal k st)); lia.
  - change (run (inp :: ins) st) with (run ins (loop inp st)).
    inversion Hidle as [|? ? Hi Hrest]; subst.
    simpl in Hticks. apply andb_true_iff in Hticks as [Hgate Hticks].
    destruct (idle_tick inp st Hstop Hi Hgate) as (Hcur & Htgt & Hflag & Hlast).
    rewrite <- Hlast in Hticks.
    destruct (IH (loop inp st) (loop_Inv inp st HI) Hflag Hrest Hticks) as [IHt IHf].
    split; [congruence|].
    intros k Hk. rewrite (IHf k Hk).
    assert (Hgoal : goal k (loop inp st) = goal k st)
      by (rewrite <- !goal_nth; now rewrite Htgt).
    assert (Hfin : finger k (loop inp st)
                   = next_angle SERVO_SPEED (finger k st) (goal k st)).
    { rewrite <- (finger_nth k (loop inp st)), Hcur, finger_nth.
      apply update_finger; [exact Hk|].
      destruct HI as [(-> & _) _]. exact Hk. }
    rewrite Hgoal, Hfin.
    destruct HI as [_ [Hc Ht]].
    pose proof (nth_angle_ok _ k Hc) as Hck. pose proof (nth_angle_ok _ k Ht) as Htk.
    rewrite finger_nth in Hck. rewrite goal_nth in Htk.
    rewrite approach_succ by (try assumption; try reflexivity; lia).
    change (List.length (inp :: ins)) with (S (List.length ins)).
    rewrite Nat2Z.inj_succ. unfold Z.succ. reflexivity.
Qed.

(** X6.  From an untripped state, over passes without serial input or
    button press in each of which the servo gate is open, every finger
    advances by SERVO_SPEED per pass straight to its target and stops
    there; the targets do not change; and after 36 such passes (180 / 5)
    at the latest all five fingers are exactly at their targets. *)
Theorem X6_pose_reached_by_ticking (ins : list PassInput) (st : State) :
  Inv st -> emergencyStop st = false -> Forall idle ins ->
  servo_ticks (lastServoUpdate st) ins = true ->
  (forall k, (k < NUM_FINGERS)%nat ->
     finger k (run ins st)
     = if finger k st <=? goal k st
       then Z.min (goal k st) (finger k st + Z.of_nat (List.length ins) * SERVO_SPEED)
       else Z.max (goal k st) (finger k st - Z.of_nat (List.length ins) * SERVO_SPEED)) /\
  targetPose (run ins st) = targetPose st /\
  ((36 <= List.length ins)%nat -> currentPose (run ins st) = targetPose st).
Proof.
  intros HI Hstop Hidle Hticks.
  destruct (run_idle_ticks ins st HI Hstop Hidle Hticks) as [Ht Hf].
  split; [exact Hf|]. split; [exact Ht|].
  intros Hlen.
  destruct (run_Inv ins st HI) as [(Lc & _ & _) _].
  destruct HI as [(_ & Lt & _) [Hc Hg]].
  apply (nth_eq_ext _ _ 0); [congruence|].
  intros k Hk. rewrite Lc in Hk.
  rewrite finger_nth, goal_nth, (Hf k Hk).
  pose proof (nth_angle_ok _ k Hc) as Hck. pose proof (nth_angle_ok _ k Hg) as Htk.
  rewrite finger_nth in Hck. rewrite goal_nth in Htk.
  unfold angle_ok, SERVO_SPEED in *.
  destruct (Z.leb_spec (finger k st) (goal k st)); lia.
Qed.

Lemma X6_pose_reached_by_ticking_witness :
  currentPose (run steady_ticks fist_commanded) = targetPose fist_commanded.
Proof.
  assert (HI : Inv fist_commanded) by apply processCommand_Inv, boot_Inv.
  assert (Hstop : emergencyStop fist_commanded = false) by (vm_compute; reflexivity).
  assert (Hidle : Forall idle steady_ticks).
  { apply Forall_forall. intros x Hx. unfold steady_ticks in Hx.
    apply in_map_iff in Hx as (k & <- & _). repeat split. }
  assert (Hticks : servo_ticks (lastServoUpdate fist_commanded) steady_ticks = true)
    by (vm_compute; reflexivity).
  apply (proj2 (proj2 (X6_pose_reached_by_ticking steady_ticks fist_commanded
                         HI Hstop Hidle Hticks))).
  unfold steady_ticks. rewrite length_map, length_seq. apply le_n.
Defined.

(** ** Commands that only print, and commands given twice *)

Lemma record_events_nil st : record_events [] st = st.
Proof. destruct st; reflexivity. Qed.

Lemma record_events_trace evs st :
  trace (record_events evs st) = (evs ++ trace st)%list.
Proof. reflexivity. Qed.

(** The branch [processCommand] takes depends on the normalised line only. *)
Lemma processCommand_pose cmd st :
  WString.startsWith (normalized cmd) "pose " = true ->
  processCommand cmd st = setPose (WString.substring 5 (normalized cmd)) st.
Proof.
  intros H. unfold processCommand. cbv zeta.
  change (WString.toLowerCase (WString.trim cmd)) with (normalized cmd).
  now rewrite H.
Qed.

Lemma processCommand_stop cmd st :
  normalized cmd = "stop" ->
  processCommand cmd st
  = println "EMERGENCY STOP ACTIVATED" (set_emergencyStop true st).
Proof.
  intros H. unfold processCommand. cbv zeta.
  change (WString.toLowerCase (WString.trim cmd)) with (normalized cmd).
  rewrite H. reflexivity.
Qed.

Lemma processCommand_resume cmd st :
  normalized cmd = "resume" ->
  processCommand cmd st = println "System resumed" (set_emergencyStop false st).
Proof.
  intros H. unfold processCommand. cbv zeta.
  change (WString.toLowerCase (WString.trim cmd)) with (normalized cmd).
  rewrite H. reflexivity.
Qed.

Lemma only_prints_refl st :
  exists evs, st = record_events evs st /\ forallb is_print evs = true.
Proof. exists []. split; [symmetry; apply record_events_nil | reflexivity]. Qed.

Lemma only_prints_print m st s :
  (exists evs, s = record_events evs st /\ forallb is_print evs = true) ->
  exists evs, print m s = record_events evs st /\ forallb is_print evs = true.
Proof.
  intros (evs & -> & H). exists (SerialPrint m :: evs). split; [reflexivity|exact H].
Qed.

Lemma only_prints_println m st s :
  (exists evs, s = record_events evs st /\ forallb is_print evs = true) ->
  exists evs, println m s = record_events evs st /\ forallb is_print evs = true.
Proof.
  intros (evs & -> & H). exists (SerialPrint (m ++ CRLF) :: evs).
  split; [reflexivity|exact H].
Qed.

Lemma processCommand_query cmd st :
  WString.startsWith (normalized cmd) "pose " = false ->
  normalized cmd <> "stop" -> normalized cmd <> "resume" ->
  exists evs, processCommand cmd st = record_events evs st
              /\ forallb is_print evs = true.
Proof.
  intros Hp Hs Hr. unfold processCommand. cbv zeta.
  change (WString.toLowerCase (WString.trim cmd)) with (normalized cmd).
  rewrite Hp.
  destruct (String.eqb_spec (normalized cmd) "list") as [_|_].
  { apply (for_loop_inv
             (fun s => exists evs, s = record_events evs st
                                   /\ forallb is_print evs = true)).
    - intros i s Hs'. unfold list_body. cbv zeta.
      now apply only_prints_println, only_prints_print.
    - apply only_prints_println, only_prints_refl. }
  destruct (String.eqb_spec (normalized cmd) "stop") as [E|_]; [contradiction|].
  destruct (String.eqb_spec (normalized cmd) "data") as [_|_].
  { unfold printSensorData. cbv zeta.
    repeat first [apply only_prints_println | apply only_prints_print].
    apply only_prints_refl. }
  destruct (String.eqb_spec (normalized cmd) "resume") as [E|_]; [contradiction|].
  apply only_prints_println, only_prints_refl.
Qed.

(** X7.  A command line that is neither a pose command nor stop nor resume
    (so list, data, and every unknown or empty line) changes nothing in the
    state: it only prints to the serial port. *)
Theorem X7_query_commands_only_print (cmd : string) (st : State) :
  WString.startsWith (normalized cmd) "pose " = false ->
  normalized cmd <> "stop" -> normalized cmd <> "resume" ->
  exists evs, processCommand cmd st = record_events evs st
              /\ forallb is_print evs = true.
Proof. apply processCommand_query. Qed.

Lemma X7_query_commands_only_print_witness :
  exists evs, processCommand " DATA " tripped_midway = record_events evs tripped_midway
              /\ forallb is_print evs = true.
Proof.
  apply (X7_query_commands_only_print " DATA " tripped_midway);
    [reflexivity | discriminate | discriminate].
Defined.

Lemma println_record m st :
  println m st = record_events [SerialPrint (m ++ CRLF)] st.
Proof. reflexivity. Qed.

Lemma set_emergencyStop_same b st :
  emergencyStop st = b -> set_emergencyStop b st = st.
Proof. destruct st; simpl; intros ->; reflexivity. Qed.

Lemma flag_after_set m b st :
  emergencyStop (println m (set_emergencyStop b st)) = b.
Proof. reflexivity. Qed.

Lemma setPose_again n st p :
  find_pose poses (WString.toUpperCase n) = Some p ->
  targetPose st = angles p -> currentPoseName st = WString.toUpperCase n ->
  setPose n st
  = record_events [SerialPrint (WString.toUpperCase n ++ CRLF);
                   SerialPrint "Executing pose: "] st.
Proof.
  intros Hf Ht Hn.
  assert (Hlen : List.length (angles p) = NUM_FINGERS).
  { pose proof poses_sized as Hall. rewrite Forall_forall in Hall.
    apply Hall. now apply find_pose_sound in Hf. }
  unfold setPose, setPose_in. rewrite Hf. cbv zeta.
  destruct st as [cur tgt mv es g e h o l1 l2 l3 ss nm id att tr].
  simpl in Ht, Hn. subst tgt nm.
  destruct (angles p) as [|a0 [|a1 [|a2 [|a3 [|a4 [|]]]]]]; try discriminate.
  reflexivity.
Qed.

(** X8.  Giving the same command line twice in a row does what giving it
    once does: the second time nothing in the state changes, only the
    serial output is repeated.  This holds for every line: a pose command
    (found or not), stop, resume, list, data, and anything unknown. *)
Theorem X8_commands_given_twice (cmd : string) (st : State) :
  well_sized st ->
  exists evs,
    processCommand cmd (processCommand cmd st)
    = record_events evs (processCommand cmd st)
    /\ forallb is_print evs = true.
Proof.
  intros Hs.
  destruct (WString.startsWith (normalized cmd) "pose ") eqn:Hp.
  - rewrite !(processCommand_pose cmd) by exact Hp.
    set (n := WString.substring 5 (normalized cmd)).
    destruct (find_pose poses (WString.toUpperCase n)) as [p|] eqn:Hf.
    + rewrite (setPose_again n (setPose n st) p Hf
                 (setPose_found n st p Hs Hf) (setPose_found_name n st p Hf)).
      eexists. split; reflexivity.
    + rewrite (setPose_not_found n (setPose n st) Hf), println_record.
      eexists. split; reflexivity.
  - destruct (String.eqb_spec (normalized cmd) "stop") as [Hstop|Hstop].
    { rewrite !(processCommand_stop cmd) by exact Hstop.
      rewrite (set_emergencyStop_same true) by apply flag_after_set.
      rewrite (println_record _ (println _ _)). eexists. split; reflexivity. }
    destruct (String.eqb_spec (normalized cmd) "resume") as [Hres|Hres].
    { rewrite !(processCommand_resume cmd) by exact Hres.
      rewrite (set_emergencyStop_same false) by apply flag_after_set.
      rewrite (println_record _ (println _ _)). eexists. split; reflexivity. }
    apply processCommand_query; assumption.
Qed.

Lemma X8_commands_given_twice_witness :
  exists evs,
    processCommand "pose fist" (processCommand "pose fist" (boot demo_boot))
    = record_events evs (processCommand "pose fist" (boot demo_boot))
    /\ forallb is_print evs = true.
Proof.
  apply (X8_commands_given_twice "pose fist" (boot demo_boot)).
  repeat split; vm_compute; reflexivity.
Defined.

(** ** What setup establishes *)

Lemma record_events_app a b st :
  record_events a (record_events b st) = record_events (a ++ b) st.
Proof. unfold record_events. simpl. now rewrite app_assoc. Qed.

Lemma emit_record e st : emit e st = record_events [e] st.
Proof. reflexivity. Qed.

(** Additions to the trace that do not concern a servo. *)
Lemma quiet_refl st :
  exists evs, st = record_events evs st /\ existsb is_servo_event evs = false.
Proof. exists []. split; [symmetry; apply record_events_nil | reflexivity]. Qed.

Lemma quiet_emit e st s :
  is_servo_event e = false ->
  (exists evs, s = record_events evs st /\ existsb is_servo_event evs = false) ->
  exists evs, emit e s = record_events evs st /\ existsb is_servo_event evs = false.
Proof.
  intros He (evs & -> & H). exists (e :: evs).
  split; [reflexivity | simpl; now rewrite He].
Qed.

Ltac quiet_step :=
  first [ apply (quiet_emit (SerialPrint _)); [reflexivity|]
        | apply (quiet_emit (Delay _)); [reflexivity|] ].

Lemma initSensors_quiet found st :
  exists evs, initSensors found st = record_events evs st
              /\ existsb is_servo_event evs = false.
Proof.
  unfold initSensors, println. cbv zeta.
  destruct (negb found); repeat quiet_step; apply quiet_refl.
Qed.

Lemma initWiFi_quiet b st :
  exists evs, initWiFi b st = record_events evs st
              /\ existsb is_servo_event evs = false.
Proof.
  unfold initWiFi. cbv zeta.
  assert (H : exists evs,
             for_loop (wifi_polls b) 0
               (fun _ st => print "." (emit (Delay 500) st))
               (print "Connecting to WiFi" st) = record_events evs st
             /\ existsb is_servo_event evs = false).
  { apply (for_loop_inv
             (fun s => exists evs, s = record_events evs st
                                   /\ existsb is_servo_event evs = false)).
    - intros i s Hs. unfold print. now repeat quiet_step.
    - unfold print. quiet_step. apply quiet_refl. }
  unfold println, print in *.
  destruct (wifi_joined b); repeat quiet_step; exact H.
Qed.

Lemma set_sessionID_record v evs st :
  set_sessionID v (record_events evs st) = record_events evs (set_sessionID v st).
Proof. reflexivity. Qed.

Lemma set_sessionStartTime_record v evs st :
  set_sessionStartTime v (record_events evs st)
  = record_events evs (set_sessionStartTime v st).
Proof. reflexivity. Qed.

Lemma fire_record irq evs st :
  fire irq (record_events evs st) = record_events evs (fire irq st).
Proof. destruct irq; reflexivity. Qed.

(** The servo part of setup, on the globals as they are at power-on. *)
Lemma initServos_power_on :
  initServos (println "=== THANOS Evolution Initializing ===" power_on)
  = record_events
      (trace (initServos (println "=== THANOS Evolution Initializing ===" power_on)))
      (mkState [0; 0; 0; 0; 0] [0; 0; 0; 0; 0] false false 0 0 0 0 0 0 0 0
         "REST" EmptyString [true; true; true; true; true] []).
Proof. vm_compute. reflexivity. Qed.

Lemma initServos_servo_events :
  filter is_servo_event
    (trace (initServos (println "=== THANOS Evolution Initializing ===" power_on)))
  = [ ServoWrite 4 0; ServoAttach 4 10; ServoWrite 3 0; ServoAttach 3 9;
      ServoWrite 2 0; ServoAttach 2 6; ServoWrite 1 0; ServoAttach 1 5;
      ServoWrite 0 0; ServoAttach 0 3 ].
Proof. vm_compute. reflexivity. Qed.

Lemma filter_quiet evs rest :
  existsb is_servo_event evs = false ->
  filter is_servo_event (evs ++ rest) = filter is_servo_event rest.
Proof.
  intros H. rewrite filter_app.
  induction evs as [|e evs IH]; [reflexivity|].
  simpl in H. apply orb_false_iff in H as [He Hevs].
  simpl. rewrite He. now apply IH.
Qed.

Lemma boot_record (b : BootInput) :
  exists evs,
    boot b = record_events evs (booted b) /\
    filter is_servo_event evs
    = [ ServoWrite 4 0; ServoAttach 4 10; ServoWrite 3 0; ServoAttach 3 9;
        ServoWrite 2 0; ServoAttach 2 6; ServoWrite 1 0; ServoAttach 1 5;
        ServoWrite 0 0; ServoAttach 0 3 ].
Proof.
  unfold boot, setup. cbv zeta.
  rewrite initServos_power_on.
  set (E0 := trace (initServos (println "=== THANOS Evolution Initializing ===" power_on))).
  set (base := mkState [0; 0; 0; 0; 0] [0; 0; 0; 0; 0] false false 0 0 0 0 0 0 0 0
                 "REST" EmptyString [true; true; true; true; true] []).
  destruct (initSensors_quiet (sensor_found b) (record_events E0 base))
    as (e1 & -> & H1).
  destruct (initWiFi_quiet b (record_events e1 (record_events E0 base)))
    as (e2 & -> & H2).
  rewrite !record_events_app, set_sessionID_record, set_sessionStartTime_record.
  rewrite !println_record, !record_events_app, fire_record.
  assert (Hb : fire (irq_boot b)
                 (set_sessionStartTime (ms_boot_start b)
                    (set_sessionID
                       (WString.ofInt (ms_boot_id b) ++ "_"
                          ++ WString.ofInt (random_id b)) base))
               = booted b)
    by (unfold base, booted; destruct (irq_boot b); reflexivity).
  rewrite Hb. eexists. split; [reflexivity|].
  - rewrite !app_assoc.
    rewrite <- (app_assoc _ e2 e1), <- app_assoc.
    rewrite filter_quiet.
    + rewrite filter_quiet; [apply initServos_servo_events|].
      rewrite existsb_app, H1, H2. reflexivity.
    + reflexivity.
Qed.

(** X9.  Whatever the optical sensor and the WiFi link do during setup,
    setup leaves the globals in one state: all five servos attached, every
    current and target angle 0, pose REST, sensor values and time stamps 0,
    the session id made of the clock reading and the random number, the
    session start time as read, and the trip flag set exactly when the stop
    button was pressed during setup.  Its only servo actions are, finger by
    finger from thumb to pinky, one attach to the finger's pin followed by
    one write of angle 0 (the trace lists the newest event first). *)
Theorem X9_setup_establishes (b : BootInput) :
  exists evs,
    boot b = record_events evs (booted b) /\
    filter is_servo_event evs
    = [ ServoWrite 4 0; ServoAttach 4 10; ServoWrite 3 0; ServoAttach 3 9;
        ServoWrite 2 0; ServoAttach 2 6; ServoWrite 1 0; ServoAttach 1 5;
        ServoWrite 0 0; ServoAttach 0 3 ].
Proof. exact (boot_record b). Qed.

(** ** What never changes during a session, and what always agrees *)

Lemma loop_session inp st :
  sessionID (loop inp st) = sessionID st /\
  sessionStartTime (loop inp st) = sessionStartTime st.
Proof.
  destruct (emergencyStop st) eqn:H.
  - rewrite loop_tripped by exact H. split; reflexivity.
  - rewrite loop_untripped by exact H.
    frame_of (fire_beside (irq_late inp)
                (command_task inp (fire (irq_early inp)
                   (cloud_task inp (sensor_task inp (servo_task inp st)))))).
    frame_of (command_task_beside inp (fire (irq_early inp)
                (cloud_task inp (sensor_task inp (servo_task inp st))))).
    frame_of (fire_beside (irq_early inp)
                (cloud_task inp (sensor_task inp (servo_task inp st)))).
    frame_of (cloud_task_beside inp (sensor_task inp (servo_task inp st))).
    frame_of (sensor_task_beside inp (servo_task inp st)).
    frame_of (servo_task_beside inp st).
    split; congruence.
Qed.

Lemma run_session ins : forall st,
  sessionID (run ins st) = sessionID st /\
  sessionStartTime (run ins st) = sessionStartTime st.
Proof.
  induction ins as [|inp ins IH]; intros st; [split; reflexivity|].
  change (run (inp :: ins) st) with (run ins (loop inp st)).
  destruct (IH (loop inp st)) as [-> ->]. apply loop_session.
Qed.

Lemma quote_free_app a b :
  quote_free (a ++ b) = quote_free a && quote_free b.
Proof.
  induction a as [|c a IH]; simpl; [reflexivity|].
  rewrite IH. now rewrite !andb_assoc.
Qed.

Lemma string_of_uint_quote_free d :
  quote_free (NilEmpty.string_of_uint d) = true.
Proof. induction d; simpl; auto. Qed.

Lemma ofInt_quote_free z : quote_free (WString.ofInt z) = true.
Proof.
  unfold WString.ofInt, NilZero.string_of_int, NilZero.string_of_uint.
  destruct (Z.to_int z) as [d|d]; destruct d;
    try reflexivity; apply (string_of_uint_quote_free (_ d)) ||
                     apply string_of_uint_quote_free.
Qed.

Lemma pose_names_quote_free :
  Forall (fun p => quote_free (name p) = true) poses.
Proof. unfold poses. repeat constructor. Qed.

(** The pose name and the targets through a command. *)
Lemma processCommand_consistent cmd st :
  well_sized st -> pose_consistent st -> pose_consistent (processCommand cmd st).
Proof.
  intros Hs Hc.
  destruct (WString.startsWith (normalized cmd) "pose ") eqn:Hp.
  - rewrite processCommand_pose by exact Hp.
    set (n := WString.substring 5 (normalized cmd)).
    destruct (find_pose poses (WString.toUpperCase n)) as [p|] eqn:Hf.
    + exists p. destruct (find_pose_sound _ _ _ Hf) as [Hin Hname].
      split; [exact Hin|]. split.
      * rewrite (setPose_found_name n st p Hf). now symmetry.
      * now apply setPose_found.
    + rewrite (setPose_not_found n st Hf). exact Hc.
  - destruct (String.eqb_spec (normalized cmd) "stop") as [Hstop|Hstop].
    { rewrite processCommand_stop by exact Hstop. exact Hc. }
    destruct (String.eqb_spec (normalized cmd) "resume") as [Hres|Hres].
    { rewrite processCommand_resume by exact Hres. exact Hc. }
    destruct (processCommand_query cmd st Hp Hstop Hres) as (evs & -> & _).
    exact Hc.
Qed.

Lemma consistent_frame st st' :
  currentPoseName st' = currentPoseName st -> targetPose st' = targetPose st ->
  pose_consistent st -> pose_consistent st'.
Proof. unfold pose_consistent. intros -> ->. auto. Qed.

Lemma loop_consistent inp st :
  Inv st -> pose_consistent st -> pose_consistent (loop inp st).
Proof.
  intros HI Hc. destruct (emergencyStop st) eqn:Hflag.
  - rewrite loop_tripped by exact Hflag.
    apply (consistent_frame st); [reflexivity | reflexivity | exact Hc].
  - rewrite loop_untripped by exact Hflag.
    set (s3 := cloud_task inp (sensor_task inp (servo_task inp st))).
    assert (Hmid : Inv s3 /\ pose_consistent s3).
    { unfold s3.
      frame_of (cloud_task_beside inp (sensor_task inp (servo_task inp st))).
      frame_of (sensor_task_beside inp (servo_task inp st)).
      frame_of (servo_task_beside inp st).
      split.
      - eapply Inv_mech; [apply cloud_task_mech|].
        eapply Inv_mech; [apply sensor_task_mech|].
        now apply servo_task_Inv.
      - apply (consistent_frame st); congruence. }
    destruct Hmid as [HI3 Hc3].
    frame_of (fire_beside (irq_late inp)
                (command_task inp (fire (irq_early inp) s3))).
    apply (consistent_frame (command_task inp (fire (irq_early inp) s3)));
      [assumption | assumption |].
    frame_of (fire_beside (irq_early inp) s3).
    assert (Hcmd : Inv (fire (irq_early inp) s3)
                 /\ pose_consistent (fire (irq_early inp) s3)).
    { split.
      - eapply Inv_mech; [apply fire_mech | exact HI3].
      - apply (consistent_frame s3); assumption. }
    destruct Hcmd as [HI4 Hc4].
    unfold command_task. destruct (serial_line inp) as [l|]; [|exact Hc4].
    apply processCommand_consistent.
    + eapply Inv_mech; [apply mech_emit | exact HI4].
    + exact Hc4.
Qed.

Lemma run_consistent ins : forall st,
  Inv st -> pose_consistent st -> pose_consistent (run ins st).
Proof.
  induction ins as [|inp ins IH]; intros st HI Hc; [exact Hc|].
  change (run (inp :: ins) st) with (run ins (loop inp st)).
  apply IH; [now apply loop_Inv | now apply loop_consistent].
Qed.

Lemma boot_consistent b : pose_consistent (boot b).
Proof.
  destruct (boot_record b) as (evs & -> & _).
  exists (mkPose "REST" [0; 0; 0; 0; 0]).
  split; [now left | split; reflexivity].
Qed.

(** X10.  In every state the sketch can reach, the pose name and the target
    angles belong to one and the same entry of the pose table: the pose
    that telemetry and the data command report is always the pose the
    fingers are heading for (REST after setup, then the last pose command
    that named an entry; a rejected name changes neither). *)
Theorem X10_pose_name_matches_targets (b : BootInput) (ins : list PassInput) :
  exists p, In p poses /\
            currentPoseName (run ins (boot b)) = name p /\
            targetPose (run ins (boot b)) = angles p.
Proof. apply run_consistent; [apply boot_Inv | apply boot_consistent]. Qed.

(** X11.  A session lasts the whole power cycle: no pass of the loop changes
    the session id or the session start time that setup chose.  The id is
    the decimal clock reading, an underscore and the decimal random number;
    neither it nor the pose name ever holds a double quote or a backslash,
    so the two quoted strings of the telemetry payload never break its
    quoting. *)
Theorem X11_session_is_fixed (b : BootInput) (ins : list PassInput) :
  sessionID (run ins (boot b))
  = WString.ofInt (ms_boot_id b) ++ "_" ++ WString.ofInt (random_id b) /\
  sessionStartTime (run ins (boot b)) = ms_boot_start b /\
  quote_free (sessionID (run ins (boot b))) = true /\
  quote_free (currentPoseName (run ins (boot b))) = true.
Proof.
  destruct (run_session ins (boot b)) as [Hid Hst].
  assert (Hb : sessionID (boot b)
               = WString.ofInt (ms_boot_id b) ++ "_" ++ WString.ofInt (random_id b)
               /\ sessionStartTime (boot b) = ms_boot_start b).
  { destruct (boot_record b) as (evs & -> & _). split; reflexivity. }
  destruct Hb as [Hb1 Hb2].
  rewrite Hid, Hst, Hb1, Hb2. repeat split.
  - rewrite !quote_free_app, !ofInt_quote_free. reflexivity.
  - destruct (run_consistent ins (boot b) (boot_Inv b) (boot_consistent b))
      as (p & Hin & -> & _).
    pose proof pose_names_quote_free as Hall. rewrite Forall_forall in Hall.
    now apply Hall.
Qed.

(** ** What a pass may add to the trace *)

Lemma adds_refl p st : adds p st st.
Proof. exists []. split; reflexivity. Qed.

Lemma adds_trans p a b c : adds p a b -> adds p b c -> adds p a c.
Proof.
  intros (e1 & H1 & P1) (e2 & H2 & P2). exists (e2 ++ e1)%list. split.
  - now rewrite H2, H1, app_assoc.
  - now rewrite forallb_app, P2, P1.
Qed.

Lemma adds_same_trace p st st' : trace st' = trace st -> adds p st st'.
Proof. intros H. exists []. split; [exact H | reflexivity]. Qed.

Lemma adds_emit p e st s : p e = true -> adds p st s -> adds p st (emit e s).
Proof.
  intros He (evs & H & P). exists (e :: evs). split.
  - simpl. now rewrite H.
  - simpl. now rewrite He, P.
Qed.

Lemma adds_weaken (p q : Event -> bool) st st' :
  (forall e, p e = true -> q e = true) -> adds p st st' -> adds q st st'.
Proof.
  intros Hpq (evs & H & P). exists evs. split; [exact H|].
  rewrite forallb_forall in *. auto.
Qed.

Lemma adds_events_since p st st' :
  adds p st st' -> forallb p (events_since st st') = true.
Proof. intros (evs & H & P). now rewrite (events_since_app _ _ _ H). Qed.

Lemma processCommand_adds cmd st : adds is_print st (processCommand cmd st).
Proof.
  destruct (WString.startsWith (normalized cmd) "pose ") eqn:Hp.
  - rewrite processCommand_pose by exact Hp.
    unfold setPose, setPose_in. destruct (find_pose _ _) as [p|]; cbv zeta.
    + set (N := WString.toUpperCase (WString.substring 5 (normalized cmd))).
      apply (adds_trans _ _ (println N (print "Executing pose: " st))).
      * unfold println, print.
        apply adds_emit; [reflexivity|].
        apply adds_emit; [reflexivity | apply adds_refl].
      * apply adds_same_trace.
        exact (proj1 (proj2 (proj2 (proj2 (setTargets_frame (angles p) _))))).
    + unfold println. apply adds_emit; [reflexivity | apply adds_refl].
  - destruct (String.eqb_spec (normalized cmd) "stop") as [Hstop|Hstop].
    { rewrite processCommand_stop by exact Hstop. unfold println.
      apply adds_emit; [reflexivity|]. now apply adds_same_trace. }
    destruct (String.eqb_spec (normalized cmd) "resume") as [Hres|Hres].
    { rewrite processCommand_resume by exact Hres. unfold println.
      apply adds_emit; [reflexivity|]. now apply adds_same_trace. }
    destruct (processCommand_query cmd st Hp Hstop Hres) as (evs & -> & H).
    exists evs. split; [reflexivity | exact H].
Qed.

Lemma trace_set_lastServoUpdate v st : trace (set_lastServoUpdate v st) = trace st.
Proof. reflexivity. Qed.

Lemma servo_body_writes speed i st :
  adds is_servo_write st (servo_body speed i st).
Proof.
  unfold servo_body. destruct (_ =? _); [apply adds_refl|]. cbv zeta.
  apply adds_emit; [reflexivity|]. now apply adds_same_trace.
Qed.

Lemma update_writes speed st :
  adds is_servo_write st (updateServoPositions_at speed st).
Proof.
  unfold updateServoPositions_at.
  apply (for_loop_inv (fun s => adds is_servo_write st s)).
  - intros i s Hs. eapply adds_trans; [exact Hs | apply servo_body_writes].
  - now apply adds_same_trace.
Qed.

Lemma servo_task_writes inp st : adds is_servo_write st (servo_task inp st).
Proof.
  unfold servo_task. destruct (_ >=? _); [|apply adds_refl].
  apply (adds_trans _ _ (updateServoPositions st));
    [apply update_writes | apply adds_same_trace, trace_set_lastServoUpdate].
Qed.

(** With the invariant, each write is to one of the five fingers and
    within [0,180]. *)
Lemma servo_body_safe speed i st :
  0 < speed -> (i < NUM_FINGERS)%nat -> Inv st ->
  adds servo_safe st (servo_body speed i st).
Proof.
  intros Hs Hi [(Hlen & _ & _) [Hc Ht]].
  pose proof (next_angle_ok speed (finger i st) (goal i st) Hs
                (nth_angle_ok _ i Hc) (nth_angle_ok _ i Ht)) as Hnext.
  unfold next_angle, finger, goal in Hnext. unfold servo_body.
  destruct (_ =? _); [apply adds_refl|]. cbv zeta.
  apply adds_emit; [|now apply adds_same_trace].
  simpl currentPose. rewrite nth_array_set_same by (rewrite Hlen; exact Hi).
  unfold servo_safe. unfold angle_ok in Hnext.
  apply andb_true_iff; split; [apply andb_true_iff; split|].
  - now apply Nat.ltb_lt.
  - apply Z.leb_le. apply Hnext.
  - apply Z.leb_le. apply Hnext.
Qed.

Lemma servo_loop_safe speed n : forall from st,
  0 < speed -> (from + n <= NUM_FINGERS)%nat -> Inv st ->
  adds servo_safe st (for_loop n from (servo_body speed) st).
Proof.
  induction n as [|n IH]; intros from st Hs Hn HI; simpl; [apply adds_refl|].
  apply (adds_trans _ _ (servo_body speed from st)).
  - apply servo_body_safe; [exact Hs | lia | exact HI].
  - apply IH; [exact Hs | lia | now apply servo_body_Inv].
Qed.

Lemma servo_task_safe inp st : Inv st -> adds servo_safe st (servo_task inp st).
Proof.
  intros HI. unfold servo_task. destruct (_ >=? _); [|apply adds_refl].
  apply (adds_trans _ _ (updateServoPositions st));
    [|apply adds_same_trace, trace_set_lastServoUpdate].
  unfold updateServoPositions, updateServoPositions_at.
  apply (adds_trans _ _ (set_movementActive false st));
    [now apply adds_same_trace|].
  apply servo_loop_safe; [reflexivity | apply le_n |].
  apply (Inv_mech st); [reflexivity | exact HI].
Qed.

Lemma print_is_safe e : is_print e = true -> servo_safe e = true.
Proof. destruct e; simpl; congruence. Qed.

Lemma sensor_task_trace inp st : trace (sensor_task inp st) = trace st.
Proof. frame_of (sensor_task_beside inp st). assumption. Qed.

Lemma uploadToCloud_trace inp st :
  trace (uploadToCloud inp st)
  = ((if wifi_connected inp
      then if connect_ok inp
           then [ SerialPrint ("✓ Data uploaded to cloud" ++ CRLF);
                  HttpPost (createDataPayload (ms_payload_stamp inp)
                              (ms_payload_dur inp) st) ]
           else [ SerialPrint ("✗ Cloud connection failed" ++ CRLF) ]
      else []) ++ trace st)%list.
Proof.
  unfold uploadToCloud. destruct (wifi_connected inp); [|reflexivity].
  destruct (connect_ok inp); reflexivity.
Qed.

Lemma cloud_task_trace inp st :
  trace (cloud_task inp st)
  = ((if wrap_ulong (ms_cloud_gate inp - lastCloudUpload st) >=? 5000
      then if wifi_connected (net inp)
           then if connect_ok (net inp)
                then [ SerialPrint ("✓ Data uploaded to cloud" ++ CRLF);
                       HttpPost (createDataPayload (ms_payload_stamp (net inp))
                                   (ms_payload_dur (net inp)) st) ]
                else [ SerialPrint ("✗ Cloud connection failed" ++ CRLF) ]
           else []
      else []) ++ trace st)%list.
Proof.
  unfold cloud_task. destruct (_ >=? _); [|reflexivity].
  skip set_lastCloudUpload. apply uploadToCloud_trace.
Qed.

Lemma cloud_task_safe inp st : adds servo_safe st (cloud_task inp st).
Proof.
  eexists. split; [apply cloud_task_trace|].
  destruct (_ >=? _); [|reflexivity].
  destruct (wifi_connected _); [|reflexivity].
  destruct (connect_ok _); reflexivity.
Qed.

Lemma fire_trace irq st : trace (fire irq st) = trace st.
Proof. destruct irq; reflexivity. Qed.

Lemma command_task_adds (p : Event -> bool) inp st :
  (forall s, p (SerialPrint s) = true) -> (forall s, p (SerialRead s) = true) ->
  adds p st (command_task inp st).
Proof.
  intros Hprint Hread. unfold command_task.
  destruct (serial_line inp) as [l|]; [|apply adds_refl].
  eapply adds_trans; [apply adds_emit; [apply Hread | apply adds_refl]|].
  apply (adds_weaken is_print); [|apply processCommand_adds].
  intros [] He; try discriminate. apply Hprint.
Qed.

Lemma handleEmergencyStop_safe st : adds servo_safe st (handleEmergencyStop st).
Proof. exists stop_events. split; reflexivity. Qed.

Lemma loop_safe inp st : Inv st -> adds servo_safe st (loop inp st).
Proof.
  intros HI. destruct (emergencyStop st) eqn:Hflag.
  - rewrite loop_tripped by exact Hflag. apply handleEmergencyStop_safe.
  - rewrite loop_untripped by exact Hflag.
    eapply adds_trans; [apply servo_task_safe; exact HI|].
    eapply adds_trans; [apply adds_same_trace, sensor_task_trace|].
    eapply adds_trans; [apply cloud_task_safe|].
    eapply adds_trans; [apply adds_same_trace, fire_trace|].
    eapply adds_trans; [apply command_task_adds; reflexivity|].
    apply adds_same_trace, fire_trace.
Qed.

Lemma run_safe ins : forall st, Inv st -> adds servo_safe st (run ins st).
Proof.
  induction ins as [|inp ins IH]; intros st HI; [apply adds_refl|].
  change (run (inp :: ins) st) with (run ins (loop inp st)).
  eapply adds_trans; [now apply loop_safe|].
  apply IH. now apply loop_Inv.
Qed.

(** X12.  After setup, whatever the loop reads, the only things it ever
    does to a servo are to write an angle between 0 and 180 to one of the
    five fingers, or to detach one.  It never writes an angle out of range
    and never attaches a servo again. *)
Theorem X12_servo_actions_are_safe (b : BootInput) (ins : list PassInput) :
  forallb servo_safe (events_since (boot b) (run ins (boot b))) = true.
Proof. apply adds_events_since, run_safe, boot_Inv. Qed.

(** ** Vital signs are kept while no finger is on the sensor *)

Lemma readSensors_absent inp st :
  ir_value inp <= 50000 ->
  heartRate (readSensors inp st) = heartRate st /\
  spo2 (readSensors inp st) = spo2 st.
Proof.
  intros H. unfold readSensors. cbv zeta.
  destruct (Z.gtb_spec (ir_value inp) 50000); [lia | split; reflexivity].
Qed.

Lemma sensor_task_absent inp st :
  ir_value (sensors inp) <= 50000 ->
  heartRate (sensor_task inp st) = heartRate st /\
  spo2 (sensor_task inp st) = spo2 st.
Proof.
  intros H. unfold sensor_task. destruct (_ >=? _); [|split; reflexivity].
  split.
  - skip set_lastSensorRead. now apply readSensors_absent.
  - skip set_lastSensorRead. now apply readSensors_absent.
Qed.

Lemma loop_absent inp st :
  ir_value (sensors inp) <= 50000 ->
  heartRate (loop inp st) = heartRate st /\ spo2 (loop inp st) = spo2 st.
Proof.
  intros Hir. destruct (emergencyStop st) eqn:Hflag.
  - rewrite loop_tripped by exact Hflag. split; reflexivity.
  - rewrite loop_untripped by exact Hflag.
    frame_of (fire_beside (irq_late inp)
                (command_task inp (fire (irq_early inp)
                   (cloud_task inp (sensor_task inp (servo_task inp st)))))).
    frame_of (command_task_beside inp (fire (irq_early inp)
                (cloud_task inp (sensor_task inp (servo_task inp st))))).
    frame_of (fire_beside (irq_early inp)
                (cloud_task inp (sensor_task inp (servo_task inp st)))).
    frame_of (cloud_task_beside inp (sensor_task inp (servo_task inp st))).
    destruct (sensor_task_absent inp (servo_task inp st) Hir) as [Hh Hs].
    frame_of (servo_task_beside inp st).
    split; congruence.
Qed.

(** X13.  Over any run of passes in none of which the optical sensor reads
    more than 50000 (no finger on it), heartRate and spo2 keep the values
    they had, whatever else those passes do: no motion step, upload,
    command, button press or fail-safe pass touches them. *)
Theorem X13_vitals_kept_without_presence (ins : list PassInput) (st : State) :
  Forall (fun inp => ir_value (sensors inp) <= 50000) ins ->
  heartRate (run ins st) = heartRate st /\ spo2 (run ins st) = spo2 st.
Proof.
  revert st. induction ins as [|inp ins IH]; intros st H; [split; reflexivity|].
  change (run (inp :: ins) st) with (run ins (loop inp st)).
  inversion H as [|? ? Hir Hrest]; subst.
  destruct (IH (loop inp st) Hrest) as [-> ->].
  now apply loop_absent.
Qed.

Lemma X13_vitals_kept_without_presence_witness :
  heartRate (run steady_ticks open_reached) = 72 /\
  spo2 (run steady_ticks open_reached) = 98.
Proof.
  assert (H : Forall (fun inp => ir_value (sensors inp) <= 50000) steady_ticks).
  { apply Forall_forall. intros x Hx. unfold steady_ticks in Hx.
    apply in_map_iff in Hx as (k & <- & _). simpl. lia. }
  destruct (X13_vitals_kept_without_presence steady_ticks open_reached H)
    as [Hh Hs].
  rewrite Hh, Hs. split; reflexivity.
Defined.

(** ** At most one upload per pass *)

Lemma filter_none {A} (p q : A -> bool) l :
  (forall x, p x = true -> q x = false) ->
  forallb p l = true -> filter q l = [].
Proof.
  intros Hpq H. induction l as [|a l IH]; [reflexivity|].
  simpl in H. apply andb_true_iff in H as [Ha Hl].
  simpl. rewrite (Hpq a Ha). now apply IH.
Qed.

Lemma write_is_no_post e : is_servo_write e = true -> is_post e = false.
Proof. destruct e; simpl; congruence. Qed.

Lemma print_or_read_is_no_post e :
  (is_print e || is_serial_read e) = true -> is_post e = false.
Proof. destruct e; simpl; congruence. Qed.

Lemma tasks_lastCloudUpload inp st :
  lastCloudUpload (sensor_task inp (servo_task inp st)) = lastCloudUpload st.
Proof.
  assert (Hs : forall s, lastCloudUpload (sensor_task inp s) = lastCloudUpload s).
  { intros s. frame_of (sensor_task_beside inp s). assumption. }
  rewrite Hs. frame_of (servo_task_beside inp st). assumption.
Qed.

(** X14.  A pass posts to the cloud at most once, and only when it began
    untripped, 5000 ms have passed since the last attempt, WiFi is up and
    the connection succeeds.  The body it posts is the payload of the state
    as this pass's motion step and sensor reading left it (before this
    pass's command), so angles and readings in one record are from the same
    pass. *)
Theorem X14_one_upload_per_pass (inp : PassInput) (st : State) :
  filter is_post (events_since st (loop inp st))
  = if negb (emergencyStop st)
       && (wrap_ulong (ms_cloud_gate inp - lastCloudUpload st) >=? 5000)
       && wifi_connected (net inp) && connect_ok (net inp)
    then [ HttpPost (createDataPayload (ms_payload_stamp (net inp))
                       (ms_payload_dur (net inp))
                       (sensor_task inp (servo_task inp st))) ]
    else [].
Proof.
  destruct (emergencyStop st) eqn:Hflag.
  - rewrite loop_tripped by exact Hflag.
    now rewrite (events_since_app _ _ _ (handleEmergencyStop_trace st)).
  - rewrite loop_untripped by exact Hflag.
    destruct (servo_task_writes inp st) as (e1 & H1 & P1).
    assert (H2 : trace (sensor_task inp (servo_task inp st)) = (e1 ++ trace st)%list)
      by now rewrite sensor_task_trace.
    pose proof (cloud_task_trace inp (sensor_task inp (servo_task inp st))) as H3.
    rewrite tasks_lastCloudUpload in H3.
    set (s2 := sensor_task inp (servo_task inp st)) in *.
    destruct (command_task_adds (fun e => is_print e || is_serial_read e) inp
                (fire (irq_early inp) (cloud_task inp s2))
                (fun _ => eq_refl) (fun _ => eq_refl)) as (e3 & H4 & P3).
    rewrite fire_trace in H4.
    assert (Hall : trace (fire (irq_late inp)
                            (command_task inp
                               (fire (irq_early inp) (cloud_task inp s2))))
                   = ((e3 ++ (if wrap_ulong (ms_cloud_gate inp - lastCloudUpload st)
                                 >=? 5000
                              then if wifi_connected (net inp)
                                   then if connect_ok (net inp)
                                        then [ SerialPrint ("✓ Data uploaded to cloud" ++ CRLF);
                                               HttpPost (createDataPayload
                                                           (ms_payload_stamp (net inp))
                                                           (ms_payload_dur (net inp)) s2) ]
                                        else [ SerialPrint ("✗ Cloud connection failed" ++ CRLF) ]
                                   else []
                              else []) ++ e1) ++ trace st)%list).
    { rewrite fire_trace, H4, H3, H2. now rewrite !app_assoc. }
    rewrite (events_since_app _ _ _ Hall), !filter_app.
    rewrite (filter_none _ _ e3 print_or_read_is_no_post P3).
    rewrite (filter_none _ _ e1 write_is_no_post P1).
    rewrite app_nil_r. simpl negb. rewrite andb_true_l.
    destruct (_ >=? _); [|reflexivity].
    destruct (wifi_connected _); [|reflexivity].
    destruct (connect_ok _); reflexivity.
Qed.

(** ** Looking a pose up in a table *)

(** X15.  [find_pose] returns an entry of the table that bears the name
    asked for, and none exactly when no entry bears it.  When the names of
    a table are pairwise different, looking up the name of an entry gives
    that very entry back; the names of the built-in table are pairwise
    different. *)
Theorem X15_find_pose_specification (tbl : list Pose) (n : string) :
  (forall p, find_pose tbl n = Some p -> In p tbl /\ name p = n) /\
  (find_pose tbl n = None <-> forall p, In p tbl -> name p <> n) /\
  (NoDup (map name tbl) ->
   forall p, In p tbl -> find_pose tbl (name p) = Some p) /\
  NoDup (map name poses).
Proof.
  split; [intros p; apply find_pose_sound|]. split; [|split].
  - split; [|apply find_pose_none].
    intros Hnone p Hin Hname. induction tbl as [|q tbl IH]; [contradiction|].
    simpl in Hnone. destruct (String.eqb_spec (name q) n) as [|Hne];
      [discriminate|].
    destruct Hin as [->|Hin]; [contradiction | now apply IH].
  - clear n. induction tbl as [|q tbl IH]; intros Hnd p Hin; [contradiction|].
    simpl in Hnd. inversion Hnd as [|? ? Hnotin Hnd']; subst.
    simpl. destruct Hin as [->|Hin].
    + now rewrite String.eqb_refl.
    + destruct (String.eqb_spec (name q) (name p)) as [Heq|_].
      * exfalso. apply Hnotin. rewrite Heq. now apply in_map.
      * now apply IH.
  - unfold poses. simpl.
    repeat (constructor; [simpl; intuition discriminate|]). constructor.
Qed.

(* ================================================================== *)
(** * Properties of the collector *)

(** ** The token check *)

Lemma split_nonempty s : Backend.split s <> [].
Proof.
  destruct s as [|c r]; simpl; [discriminate|].
  destruct (Ascii.eqb c " "); [discriminate|].
  destruct (Backend.split r); discriminate.
Qed.

Lemma split_one_word w : Backend.no_space w = true -> Backend.split w = [w].
Proof.
  induction w as [|c w IH]; simpl; [reflexivity|].
  destruct (Ascii.eqb c " "); [discriminate|]. simpl.
  intros H. now rewrite (IH H).
Qed.

Lemma split_first_word w r :
  Backend.no_space w = true ->
  Backend.split (w ++ String " " r) = w :: Backend.split r.
Proof.
  induction w as [|c w IH]; simpl; [reflexivity|].
  destruct (Ascii.eqb c " "); [discriminate|]. simpl.
  intros H. now rewrite (IH H).
Qed.

Lemma truthy_spaced w r : Backend.truthy (Some (w ++ String " " r)) = true.
Proof. destruct w; reflexivity. Qed.

(** X16.  The token check of the collector.  A request is turned away with
    401 without the verifier being consulted when it has no authorization
    header, when the header holds no space, and when nothing stands between
    its first space and the next one (or the end).  Otherwise the token is
    the text between the first space and the next one (or the end) and the
    verifier alone decides: 403 if it reports an error, else the request
    goes on with the verified user.  The word before the first space is not
    looked at, and whatever follows a second space is ignored. *)
Theorem X16_token_check (U : Type) (verify : string -> option U) :
  Backend.authenticateToken verify None = Backend.Respond 401 "No token" /\
  (forall h, Backend.no_space h = true ->
     Backend.authenticateToken verify (Some h) = Backend.Respond 401 "No token") /\
  (forall scheme rest, Backend.no_space scheme = true ->
     Backend.authenticateToken verify (Some (scheme ++ " ")) 
     = Backend.Respond 401 "No token" /\
     Backend.authenticateToken verify (Some (scheme ++ "  " ++ rest))
     = Backend.Respond 401 "No token") /\
  (forall scheme tok rest,
     Backend.no_space scheme = true -> Backend.no_space tok = true ->
     tok <> EmptyString ->
     let decided := match verify tok with
                    | Some user => Backend.Next user
                    | None => Backend.Respond 403 "Invalid token"
                    end in
     Backend.authenticateToken verify (Some (scheme ++ " " ++ tok)) = decided /\
     Backend.authenticateToken verify (Some (scheme ++ " " ++ tok ++ " " ++ rest))
     = decided).
Proof.
  split; [reflexivity|]. split; [|split].
  - intros h Hh. unfold Backend.authenticateToken.
    destruct h as [|c h]; [reflexivity|].
    cbv zeta. change (Backend.truthy (Some (String c h))) with true. cbv iota.
    now rewrite (split_one_word _ Hh).
  - intros scheme rest Hs. unfold Backend.authenticateToken. cbv zeta.
    change (scheme ++ " ") with (scheme ++ String " " EmptyString).
    change (scheme ++ "  " ++ rest) with (scheme ++ String " " (String " " rest)).
    rewrite !truthy_spaced, !(split_first_word _ _ Hs). split; reflexivity.
  - intros scheme tok rest Hs Ht Hne. cbv zeta.
    unfold Backend.authenticateToken. cbv zeta.
    change (scheme ++ " " ++ tok) with (scheme ++ String " " tok).
    change (scheme ++ " " ++ tok ++ " " ++ rest)
      with (scheme ++ String " " (tok ++ String " " rest)).
    rewrite !truthy_spaced, !(split_first_word _ _ Hs).
    rewrite (split_one_word _ Ht), (split_first_word _ _ Ht).
    destruct tok as [|c tok]; [contradiction|].
    split; reflexivity.
Qed.

(** ** The offline upload route *)

Section OfflineSyncProperties.

Variables Doc Id Err DB : Type.
Variable offlineId : Doc -> Id.
Variable findOne : DB -> Id -> Err + bool.
Variable save : DB -> Doc -> DB * option Err.

Let record := @Backend.sync_record Doc Id Err DB offlineId findOne save.
Let loop_from := @Backend.sync_loop Doc Id Err DB offlineId findOne save.

Lemma sync_record_accounts st d :
  Permutation (snd (fst (record st d)) ++ map fst (snd (record st d)))
    ((snd (fst st) ++ map fst (snd st)) ++ [offlineId d]).
Proof.
  destruct st as [[db synced] failed]. unfold record, Backend.sync_record. simpl.
  destruct (findOne db (offlineId d)) as [e|[|]]; simpl.
  - rewrite map_app, app_assoc. reflexivity.
  - rewrite <- !app_assoc. apply Permutation_app_head, Permutation_app_comm.
  - destruct (save db d) as [db' [e|]]; simpl.
    + rewrite map_app, app_assoc. reflexivity.
    + rewrite <- !app_assoc. apply Permutation_app_head, Permutation_app_comm.
Qed.

Lemma sync_fold_accounts docs : forall st,
  Permutation
    (snd (fst (fold_left record docs st)) ++ map fst (snd (fold_left record docs st)))
    ((snd (fst st) ++ map fst (snd st)) ++ map offlineId docs).
Proof.
  induction docs as [|d docs IH]; intros st.
  - simpl. now rewrite app_nil_r.
  - simpl fold_left. rewrite IH, (sync_record_accounts st d).
    simpl map. rewrite <- app_assoc. reflexivity.
Qed.

Lemma sync_record_present db synced failed d :
  findOne db (offlineId d) = inr true ->
  record (db, synced, failed) d = (db, (synced ++ [offlineId d])%list, failed).
Proof. intros H. unfold record, Backend.sync_record. now rewrite H. Qed.

Lemma sync_fold_present docs : forall db synced failed,
  (forall d, In d docs -> findOne db (offlineId d) = inr true) ->
  fold_left record docs (db, synced, failed)
  = (db, (synced ++ map offlineId docs)%list, failed).
Proof.
  induction docs as [|d docs IH]; intros db synced failed H.
  - simpl. now rewrite app_nil_r.
  - change (fold_left record (d :: docs) (db, synced, failed))
      with (fold_left record docs (record (db, synced, failed) d)).
    rewrite sync_record_present by (apply H; now left).
    rewrite IH by (intros d' Hd'; apply H; now right).
    simpl map. now rewrite <- app_assoc.
Qed.

(** Without a [null] element the loop runs to its end. *)
Lemma sync_loop_all_records docs : forall st,
  loop_from st (map Some docs) = inr (fold_left record docs st).
Proof.
  induction docs as [|d docs IH]; intros st; [reflexivity|].
  simpl. apply IH.
Qed.

(** The first [null] element ends it, with the store as the records before
    it left it. *)
Lemma sync_loop_null before after : forall st,
  loop_from st (map Some before ++ None :: after)%list
  = inl (fst (fst (fold_left record before st))).
Proof.
  induction before as [|d before IH]; intros st; [reflexivity|].
  simpl. apply IH.
Qed.

End OfflineSyncProperties.

(** X17.  The offline upload route.  When [offlineData] holds no [null]
    element, the route answers with counts that account for every record:
    each record's id is in exactly one of the lists synced and failed, so
    the two counts add up to the number of records sent; and a batch whose
    ids are all in the store already is answered as synced in full with
    nothing failed and the store unchanged.  When [offlineData] holds a
    [null] element, the route answers with status 500 and no counts, and the
    store is as the records before the first [null] left it: what they
    stored stays stored.  When [offlineData] cannot be iterated the answer
    is 500 and the store is unchanged. *)
Theorem X17_offline_sync_accounts (Doc Id Err DB : Type) (offlineId : Doc -> Id)
    (findOne : DB -> Id -> Err + bool) (save : DB -> Doc -> DB * option Err)
    (db : DB) :
  (forall docs, exists db' synced failed,
     Backend.sync_upload offlineId findOne save db (Some (map Some docs))
     = (db', Backend.Synced (List.length synced) (List.length failed) failed) /\
     Permutation (synced ++ map fst failed) (map offlineId docs) /\
     (List.length synced + List.length failed = List.length docs)%nat) /\
  (forall docs, (forall d, In d docs -> findOne db (offlineId d) = inr true) ->
     Backend.sync_upload offlineId findOne save db (Some (map Some docs))
     = (db, Backend.Synced (List.length docs) 0 [])) /\
  (forall before after,
     Backend.sync_upload offlineId findOne save db
       (Some (map Some before ++ None :: after)%list)
     = (fst (fst (fold_left (Backend.sync_record offlineId findOne save) before
                    (db, [], []))),
        Backend.ServerError)) /\
  Backend.sync_upload offlineId findOne save db None = (db, Backend.ServerError).
Proof.
  split; [|split; [|split; [|reflexivity]]].
  - intros docs. unfold Backend.sync_upload.
    rewrite (sync_loop_all_records Doc Id Err DB offlineId findOne save).
    pose proof (sync_fold_accounts Doc Id Err DB offlineId findOne save
                  docs (db, [], [])) as H.
    destruct (fold_left (Backend.sync_record offlineId findOne save) docs
                (db, [], [])) as [[db' synced] failed].
    simpl in H. exists db', synced, failed.
    split; [reflexivity|]. split; [exact H|].
    apply Permutation_length in H.
    rewrite length_app, !length_map in H. exact H.
  - intros docs H. unfold Backend.sync_upload.
    rewrite (sync_loop_all_records Doc Id Err DB offlineId findOne save).
    rewrite (sync_fold_present Doc Id Err DB offlineId findOne save
               docs db [] [] H).
    simpl. now rewrite length_map.
  - intros before after. unfold Backend.sync_upload.
    now rewrite (sync_loop_null Doc Id Err DB offlineId findOne save).
Qed.
